(** * OCR output collection for the document-summarisation webhook

    A shallow embedding of [webhook/document_extract.py]: the three functions
    [clear_ocr_output_folder], [async_document_extract] and
    [get_ocr_output_from_bucket], together with the parts of the Python
    runtime and of the storage and OCR collaborators they rely on.

    Conventions.
    - A Python [str] or [bytes] value is a [string]: the sequence of the bytes
      of its UTF-8 encoding.  The slash, the line feed and the letters of the
      program's literals are single bytes there, and no such byte occurs
      inside the encoding of another character.  A decimal digit, which
      [\d] matches and [int] reads, is a character of any script: it is
      decoded from the bytes ([Unicode.digit]).
    - A Python [int] is a [Z].
    - The interpreter is CPython 3.11 with its defaults: the decimal digits
      are those of Unicode 14.0, [int] and [json.loads] refuse an integer of
      more than 4300 digits, and [json.loads] raises [RecursionError] when
      arrays and objects are nested deeper than the stack allows, or when
      the stack is too short for the call that builds one of its messages.
      The depth the stack allows depends on where the program is called
      from, so it is a parameter, [depth_limit], of the functions that read
      documents; the stack always holds the calls the program itself makes.
    - An object name is at most 1024 bytes long in the storage service, so
      the key function never meets the 4300 digits at which [int] raises:
      it is modelled as the total function it is on such names.
    - A call that may raise returns a [result]; code that talks to the
      storage or OCR service is written in the state-and-exception monad
      [M] over the [World]. *)

From Stdlib Require Import ZArith Ascii.
From stdpp Require Import gmap strings list fin_maps sorting.

Local Open Scope Z_scope.

(** ** Exceptions and results *)

Inductive exn : Type :=
| AttributeError
| TypeError
| UnicodeDecodeError
| JSONDecodeError
| KeyError
| RecursionError
| ValueError
| NotFound
| TimeoutError
| ServiceError.

Inductive result (A : Type) : Type :=
| Ok (a : A)
| Raise (e : exn).
Arguments Ok {A} a.
Arguments Raise {A} e.

Definition rbind {A B} (r : result A) (f : A → result B) : result B :=
  match r with
  | Ok a => f a
  | Raise e => Raise e
  end.

Declare Scope result_scope.
Delimit Scope result_scope with result.
Notation "'let?' x := r 'in' k" := (rbind r (λ x, k))
  (at level 10, x name, r at level 100, k at level 200) : result_scope.
Notation "'let?' ' p := r 'in' k" := (rbind r (λ p, k))
  (at level 10, p strict pattern, r at level 100, k at level 200)
  : result_scope.

(** ** The limits of the interpreter *)

(** [sys.int_info.default_max_str_digits]: the digits an integer may have
    when it is converted from a [str]. *)
Definition int_max_str_digits : nat := 4300.

(** ** Strings *)

Module Str.

(** [s.startswith(pre)] *)
Fixpoint startswith (pre s : string) : bool :=
  match pre, s with
  | EmptyString, _ => true
  | String a pre', String b s' =>
      if decide (a = b) then startswith pre' s' else false
  | String _ _, EmptyString => false
  end.

(** [s.endswith(suf)]: some tail of [s] is [suf]. *)
Fixpoint endswith (s suf : string) : bool :=
  if decide (s = suf) then true
  else match s with
       | EmptyString => false
       | String _ s' => endswith s' suf
       end.

(** The part of [s] in front of its tail [rest]. *)
Fixpoint consumed (s rest : string) : string :=
  if decide (s = rest) then EmptyString
  else match s with
       | EmptyString => EmptyString
       | String c s' => String c (consumed s' rest)
       end.

(** [s] with the literal [lit] removed from its front. *)
Fixpoint chop (lit s : string) : option string :=
  match lit, s with
  | EmptyString, _ => Some s
  | String a lit', String b s' =>
      if decide (a = b) then chop lit' s' else None
  | String _ _, EmptyString => None
  end.

(** One of the characters [0]..[9]. *)
Definition is_digit (c : ascii) : bool :=
  match Ascii.is_nat c with Some _ => true | None => false end.

(** [sub in s]: [sub] starts at some position of [s]. *)
Fixpoint contains (sub s : string) : bool :=
  if startswith sub s then true
  else match s with
       | EmptyString => false
       | String _ s' => contains sub s'
       end.

Fixpoint all (p : ascii → bool) (s : string) : bool :=
  match s with
  | EmptyString => true
  | String c s' => p c && all p s'
  end.

End Str.

(** ** UTF-8 *)

Module Utf8.

Definition code (c : ascii) : Z := Z.of_nat (nat_of_ascii c).
Definition chr (n : Z) : ascii := ascii_of_nat (Z.to_nat n).

Definition is_cont (c : ascii) : bool :=
  (128 <=? code c) && (code c <? 192).

(** [bytes.decode("utf-8")] succeeds on the well-formed sequences: no
    overlong form, no surrogate, nothing above U+10FFFF. *)
Fixpoint valid (s : string) : bool :=
  match s with
  | EmptyString => true
  | String a s1 =>
      if code a <? 128 then valid s1
      else match s1 with
      | String b s2 =>
          if (194 <=? code a) && (code a <? 224) then is_cont b && valid s2
          else match s2 with
          | String c s3 =>
              if (224 <=? code a) && (code a <? 240) then
                is_cont b && is_cont c
                && negb ((code a =? 224) && (code b <? 160))
                && negb ((code a =? 237) && (160 <=? code b))
                && valid s3
              else match s3 with
              | String d s4 =>
                  (240 <=? code a) && (code a <? 245)
                  && is_cont b && is_cont c && is_cont d
                  && negb ((code a =? 240) && (code b <? 144))
                  && negb ((code a =? 244) && (144 <=? code b))
                  && valid s4
              | EmptyString => false
              end
          | EmptyString => false
          end
      | EmptyString => false
      end
  end.

(** The first character of [s], as its code point, and the rest of [s];
    nothing when [s] is empty or does not start with a well-formed
    sequence. *)
Definition uncons (s : string) : option (Z * string) :=
  match s with
  | EmptyString => None
  | String a s1 =>
      if code a <? 128 then Some (code a, s1)
      else match s1 with
      | String b s2 =>
          if (194 <=? code a) && (code a <? 224) then
            if is_cont b then
              Some ((code a - 192) * 64 + (code b - 128), s2)
            else None
          else match s2 with
          | String c s3 =>
              if (224 <=? code a) && (code a <? 240) then
                if is_cont b && is_cont c
                   && negb ((code a =? 224) && (code b <? 160))
                   && negb ((code a =? 237) && (160 <=? code b))
                then
                  Some ((code a - 224) * 4096 + (code b - 128) * 64
                        + (code c - 128), s3)
                else None
              else match s3 with
              | String d s4 =>
                  if (240 <=? code a) && (code a <? 245)
                     && is_cont b && is_cont c && is_cont d
                     && negb ((code a =? 240) && (code b <? 144))
                     && negb ((code a =? 244) && (144 <=? code b))
                  then
                    Some ((code a - 240) * 262144 + (code b - 128) * 4096
                          + (code c - 128) * 64 + (code d - 128), s4)
                  else None
              | EmptyString => None
              end
          | EmptyString => None
          end
      | EmptyString => None
      end
  end.

Definition decode (b : string) : result string :=
  if valid b then Ok b else Raise UnicodeDecodeError.

Definition str1 (n : Z) : string := String (chr n) EmptyString.

(** The encoding of the character with code point [n]. *)
Definition encode (n : Z) : string :=
  if n <? 128 then str1 n
  else if n <? 2048 then
    str1 (192 + n / 64) +:+ str1 (128 + n mod 64)
  else if n <? 65536 then
    str1 (224 + n / 4096) +:+ str1 (128 + (n / 64) mod 64)
    +:+ str1 (128 + n mod 64)
  else
    str1 (240 + n / 262144) +:+ str1 (128 + (n / 4096) mod 64)
    +:+ str1 (128 + (n / 64) mod 64) +:+ str1 (128 + n mod 64).

(** The characters of a [str], each as a one-character [str]. *)
Fixpoint chars (s : string) : list string :=
  match s with
  | EmptyString => []
  | String c s' =>
      let cs := chars s' in
      match s', cs with
      | String d _, g :: gs =>
          if is_cont d then String c g :: gs
          else String c EmptyString :: cs
      | _, _ => String c EmptyString :: cs
      end
  end.

End Utf8.

(** ** Decimal digits

    The characters [\d] matches in a [str] pattern and [int] converts: the
    decimal digits of every script (general category Nd).  They come in runs
    of ten consecutive code points, the digits zero to nine in this order. *)

Module Unicode.

(** The code point of the digit zero of each run, Unicode 14.0. *)
Definition decimal_zeros : list Z :=
  [48; 1632; 1776; 1984; 2406; 2534; 2662; 2790; 2918; 3046; 3174; 3302;
   3430; 3558; 3664; 3792; 3872; 4160; 4240; 6112; 6160; 6470; 6608; 6784;
   6800; 6992; 7088; 7232; 7248; 42528; 43216; 43264; 43472; 43504; 43600;
   44016; 65296; 66720; 68912; 69734; 69872; 69942; 70096; 70384; 70736;
   70864; 71248; 71360; 71472; 71904; 72016; 72784; 73040; 73120; 92768;
   92864; 93008; 120782; 120792; 120802; 120812; 120822; 123200; 123632;
   125264; 130032].

Fixpoint decimal_in (zeros : list Z) (n : Z) : option Z :=
  match zeros with
  | [] => None
  | z :: zeros' =>
      if (z <=? n) && (n <=? z + 9) then Some (n - z)
      else decimal_in zeros' n
  end.

(** The value of the decimal digit with code point [n]. *)
Definition decimal (n : Z) : option Z := decimal_in decimal_zeros n.

(** The value of the decimal digit at the front of [s], and the rest of
    [s]. *)
Definition digit (s : string) : option (Z * string) :=
  match Utf8.uncons s with
  | Some (n, s') =>
      match decimal n with
      | Some d => Some (d, s')
      | None => None
      end
  | None => None
  end.

End Unicode.

(** ** Regular expressions

    The fragment of Python's [re] the program uses: literals, greedy [+] on
    the character classes [.], [[^c]] and [\d], concatenation and capturing
    groups.  Matching is the backtracking, leftmost, greedy search of [re]:
    [exec] tries the alternatives in priority order and hands the rest of the
    input to its continuation.  The classes [.] and [[^c]] are told byte by
    byte, which gives the matches of the pattern on characters: the line
    feed and [c] are single bytes.  A [\d] takes a whole character. *)

Module Re.

Inductive cls : Type :=
| Dot                    (* [.]: any character but a line feed *)
| NotChr (c : ascii).    (* [[^c]] *)

Inductive regex : Type :=
| Lit (s : string)
| Plus (c : cls)
| Digits                 (* [\d+] *)
| Seq (r1 r2 : regex)
| Group (r : regex).

Definition line_feed : ascii := "010"%char.

Definition cls_match (c : cls) (a : ascii) : bool :=
  match c with
  | Dot => bool_decide (a ≠ line_feed)
  | NotChr b => bool_decide (a ≠ b)
  end.

(** A match object: the texts of the groups, group 1 first. *)
Definition match_obj : Type := list string.

Definition cont : Type := string → match_obj → option match_obj.

(** [c+] followed by [k]: the longest run first, then shorter ones. *)
Fixpoint plus (c : cls) (k : string → option match_obj) (s : string)
  : option match_obj :=
  match s with
  | EmptyString => None
  | String a s' =>
      if cls_match c a then
        match plus c k s' with
        | Some m => Some m
        | None => k s'
        end
      else None
  end.

(** [\d+] followed by [k].  Every digit takes a byte at least, so the run
    has no more digits than [s] has bytes: [fuel] is the length of [s]. *)
Fixpoint digits_plus (fuel : nat) (k : string → option match_obj)
    (s : string) : option match_obj :=
  match fuel with
  | O => None
  | S fuel' =>
      match Unicode.digit s with
      | Some (_, s') =>
          match digits_plus fuel' k s' with
          | Some m => Some m
          | None => k s'
          end
      | None => None
      end
  end.

Fixpoint exec (r : regex) (s : string) (g : match_obj) (k : cont)
  : option match_obj :=
  match r with
  | Lit l =>
      match Str.chop l s with
      | Some s' => k s' g
      | None => None
      end
  | Plus c => plus c (λ s', k s' g) s
  | Digits => digits_plus (String.length s) (λ s', k s' g) s
  | Seq r1 r2 => exec r1 s g (λ s' g', exec r2 s' g' k)
  | Group r1 => exec r1 s g (λ s' g', k s' (g' ++ [Str.consumed s s']))
  end.

(** [re.match(r, s)]: a match at the start of [s]. *)
Definition re_match (r : regex) (s : string) : option match_obj :=
  exec r s [] (λ _ g, Some g).

(** [re.search(r, s)]: the first position of [s] with a match. *)
Fixpoint re_search (r : regex) (s : string) : option match_obj :=
  match re_match r s with
  | Some m => Some m
  | None =>
      match s with
      | EmptyString => None
      | String _ s' => re_search r s'
      end
  end.

(** [m.group(i)] for [i >= 1]. *)
Definition group (m : match_obj) (i : nat) : string :=
  default EmptyString (m !! pred i).

End Re.

(** [r"gs://([^/]+)/(.+)"] *)
Definition uri_re : Re.regex :=
  Re.Seq (Re.Lit "gs://")
    (Re.Seq (Re.Group (Re.Plus (Re.NotChr "/")))
       (Re.Seq (Re.Lit "/") (Re.Group (Re.Plus Re.Dot)))).

(** [r'output-(\d+)-to-\d+'] *)
Definition page_re : Re.regex :=
  Re.Seq (Re.Lit "output-")
    (Re.Seq (Re.Group Re.Digits) (Re.Seq (Re.Lit "-to-") Re.Digits)).

(** ** JSON documents

    The value [json.loads] returns.  A number keeps its lexeme: the program
    never looks at one.  An object is a Python [dict]: its keys are distinct
    and kept in insertion order. *)

#[warnings="-register-all"]
Inductive json : Type :=
| JNull
| JBool (b : bool)
| JNumber (lexeme : string)
| JString (s : string)
| JArray (items : list json)
| JObject (members : list (string * json)).

Module Dict.

Definition t : Type := list (string * json).

(** [k in d] *)
Fixpoint mem (k : string) (d : t) : bool :=
  match d with
  | [] => false
  | (k', _) :: d' => if decide (k = k') then true else mem k d'
  end.

(** [d.get(k)], [None] when the key is absent *)
Fixpoint get (k : string) (d : t) : option json :=
  match d with
  | [] => None
  | (k', v) :: d' => if decide (k = k') then Some v else get k d'
  end.

(** [d[k] = v]: a present key keeps its place and takes the new value. *)
Fixpoint set (k : string) (v : json) (d : t) : t :=
  match d with
  | [] => [(k, v)]
  | (k', v') :: d' =>
      if decide (k = k') then (k, v) :: d' else (k', v') :: set k v d'
  end.

(** [dict(pairs)] *)
Definition of_pairs (pairs : list (string * json)) : t :=
  foldl (λ d kv, set kv.1 kv.2 d) [] pairs.

End Dict.


(** [json.loads] on a [str], after the scanner of the standard library:
    [scan_string] is [scanstring] in strict mode, [parse_value] is
    [scan_once], [parse_pairs] and [parse_items] are the loops of
    [JSONObject] and [JSONArray].

    [depth] is the number of arrays and objects that can still be entered,
    one inside the other: the scanner raises [RecursionError] at the
    bracket that opens one more.  The stack is taken to hold the calls the
    program itself makes, up to the call of [json.loads].  An integer of
    more than
    [int_max_str_digits] digits is refused by [int] with [ValueError]; a
    number with a fraction or an exponent goes to [float], which takes any
    length.

    The fuel makes the recursion structural.  It is no part of the
    behaviour: [loads] gives enough of it for the whole text, and no run of
    the scanner ends [Starved] (lemma [loads_fuel]). *)

Module Json.

Local Open Scope result_scope.

(** What a scanning function ends in: a value and the rest of the text;
    the [StopIteration] of [scan_once] where the text has no value, which
    [raw_decode] turns into a [JSONDecodeError]; an exception; or the end
    of its fuel. *)
Inductive scanned (A : Type) : Type :=
| Scanned (a : A) (rest : string)
| Stopped
| Failed (e : exn)
| Starved.
Arguments Scanned {A} a rest.
Arguments Stopped {A}.
Arguments Failed {A} e.
Arguments Starved {A}.

Definition quote : ascii := "034"%char.
Definition backslash : ascii := "092"%char.

Definition is_ws (c : ascii) : bool :=
  bool_decide (c = " "%char) || bool_decide (c = "009"%char)
  || bool_decide (c = "010"%char) || bool_decide (c = "013"%char).

Fixpoint skip_ws (s : string) : string :=
  match s with
  | EmptyString => EmptyString
  | String c s' => if is_ws c then skip_ws s' else s
  end.

Definition hex_value (c : ascii) : option Z :=
  let n := Utf8.code c in
  if (48 <=? n) && (n <=? 57) then Some (n - 48)
  else if (65 <=? n) && (n <=? 70) then Some (n - 55)
  else if (97 <=? n) && (n <=? 102) then Some (n - 87)
  else None.

Definition hex4 (a b c d : ascii) : option Z :=
  match hex_value a, hex_value b, hex_value c, hex_value d with
  | Some x, Some y, Some z, Some w => Some (((x * 16 + y) * 16 + z) * 16 + w)
  | _, _, _, _ => None
  end.

Definition unescape (e : ascii) : option ascii :=
  if decide (e = quote) then Some quote
  else if decide (e = backslash) then Some backslash
  else if decide (e = "/"%char) then Some "/"%char
  else if decide (e = "b"%char) then Some "008"%char
  else if decide (e = "f"%char) then Some "012"%char
  else if decide (e = "n"%char) then Some "010"%char
  else if decide (e = "r"%char) then Some "013"%char
  else if decide (e = "t"%char) then Some "009"%char
  else None.

Definition is_high (u : Z) : bool := (55296 <=? u) && (u <=? 56319).
Definition is_low (u : Z) : bool := (56320 <=? u) && (u <=? 57343).
Definition join (hi lo : Z) : Z :=
  65536 + Z.lor (Z.shiftl (hi - 55296) 10) (lo - 56320).

Definition snoc (acc : string) (c : ascii) : string :=
  acc +:+ String c EmptyString.

(** The text of a string literal, from just after its opening quote. *)
Fixpoint scan_string (acc s : string) : result (string * string) :=
  match s with
  | EmptyString => Raise JSONDecodeError
  | String c s1 =>
      if decide (c = quote) then Ok (acc, s1)
      else if Utf8.code c <? 32 then Raise JSONDecodeError
      else if decide (c = backslash) then
        match s1 with
        | EmptyString => Raise JSONDecodeError
        | String e s2 =>
            if decide (e = "u"%char) then
              match s2 with
              | String h1 (String h2 (String h3 (String h4 s3))) =>
                  match hex4 h1 h2 h3 h4 with
                  | None => Raise JSONDecodeError
                  | Some u =>
                      match s3 with
                      | String b1 (String b2 (String k1 (String k2
                          (String k3 (String k4 s4))))) =>
                          if is_high u && bool_decide (b1 = backslash)
                             && bool_decide (b2 = "u"%char) then
                            match hex4 k1 k2 k3 k4 with
                            | None => Raise JSONDecodeError
                            | Some u2 =>
                                if is_low u2 then
                                  scan_string
                                    (acc +:+ Utf8.encode (join u u2)) s4
                                else scan_string (acc +:+ Utf8.encode u) s3
                            end
                          else scan_string (acc +:+ Utf8.encode u) s3
                      | _ => scan_string (acc +:+ Utf8.encode u) s3
                      end
                  end
              | _ => Raise JSONDecodeError
              end
            else
              match unescape e with
              | Some c' => scan_string (snoc acc c') s2
              | None => Raise JSONDecodeError
              end
        end
      else scan_string (snoc acc c) s1
  end.

(** The longest run of decimal digits at the front of [s], and the rest. *)
Fixpoint digits (s : string) : string * string :=
  match s with
  | EmptyString => (EmptyString, EmptyString)
  | String c s' =>
      if Str.is_digit c then
        let '(ds, r) := digits s' in (String c ds, r)
      else (EmptyString, s)
  end.

(** The integer part: an optional minus sign, then [0] or a digit run
    that does not start with [0]. *)
Definition scan_int (s : string) : option (string * string) :=
  let '(sign, t) :=
    match s with
    | String c t =>
        if decide (c = "-"%char) then ("-", t) else (EmptyString, s)
    | EmptyString => (EmptyString, s)
    end in
  match t with
  | String c t' =>
      if decide (c = "0"%char) then Some (sign +:+ "0", t')
      else if Str.is_digit c then
        let '(ds, r) := digits t' in Some (sign +:+ String c ds, r)
      else None
  | EmptyString => None
  end.

(** The optional fraction: a point and at least one digit. *)
Definition scan_frac (s : string) : string * string :=
  match s with
  | String c t =>
      if decide (c = "."%char) then
        match digits t with
        | (EmptyString, _) => (EmptyString, s)
        | (ds, r) => (String c ds, r)
        end
      else (EmptyString, s)
  | EmptyString => (EmptyString, s)
  end.

(** The optional exponent: [e] or [E], an optional sign, at least one
    digit. *)
Definition scan_exp (s : string) : string * string :=
  match s with
  | String e t =>
      if bool_decide (e = "e"%char) || bool_decide (e = "E"%char) then
        let '(sign, t') :=
          match t with
          | String c t1 =>
              if bool_decide (c = "+"%char) || bool_decide (c = "-"%char)
              then (String c EmptyString, t1) else (EmptyString, t)
          | EmptyString => (EmptyString, t)
          end in
        match digits t' with
        | (EmptyString, _) => (EmptyString, s)
        | (ds, r) => (String e (sign +:+ ds), r)
        end
      else (EmptyString, s)
  | EmptyString => (EmptyString, s)
  end.

(** The digits of an integer lexeme: its length without the sign. *)
Definition int_digits (i : string) : nat :=
  match i with
  | String c t => if decide (c = "-"%char) then String.length t
                  else String.length i
  | EmptyString => O
  end.

(** A number: its lexeme, or the [ValueError] of [int] for an integer that
    is too long, and the rest of the text. *)
Definition scan_number (s : string) : option (result string * string) :=
  match scan_int s with
  | None => None
  | Some (i, r1) =>
      let '(f, r2) := scan_frac r1 in
      let '(e, r3) := scan_exp r2 in
      match f, e with
      | EmptyString, EmptyString =>
          if (int_max_str_digits <? int_digits i)%nat
          then Some (Raise ValueError, r3)
          else Some (Ok i, r3)
      | _, _ => Some (Ok (i +:+ f +:+ e), r3)
      end
  end.

(** One of the constants [NaN], [Infinity] and [-Infinity], which the
    scanner hands to a function of the decoder: a call, which takes the
    stack of one more level. *)
Definition constant (depth : nat) (lexeme : string) : result json :=
  if (1 <=? depth)%nat then Ok (JNumber lexeme) else Raise RecursionError.

Definition literal (depth : nat) (s : string)
  : option (result json * string) :=
  match Str.chop "null" s with
  | Some r => Some (Ok JNull, r)
  | None =>
  match Str.chop "true" s with
  | Some r => Some (Ok (JBool true), r)
  | None =>
  match Str.chop "false" s with
  | Some r => Some (Ok (JBool false), r)
  | None =>
  match scan_number s with
  | Some (n, r) => Some (rbind n (λ lexeme, Ok (JNumber lexeme)), r)
  | None =>
  match Str.chop "NaN" s with
  | Some r => Some (constant depth "NaN", r)
  | None =>
  match Str.chop "Infinity" s with
  | Some r => Some (constant depth "Infinity", r)
  | None =>
  match Str.chop "-Infinity" s with
  | Some r => Some (constant depth "-Infinity", r)
  | None => None
  end end end end end end end.

(** The exception of a message of the scanner itself (a missing delimiter,
    colon or key, a broken string).  Building it is a call as well, and
    takes the stack of three more levels: raised where [depth] is less, it
    comes out as the [RecursionError] of that call. *)
Definition message_error (depth : nat) : exn :=
  if (3 <=? depth)%nat then JSONDecodeError else RecursionError.

Fixpoint parse_value (fuel depth : nat) (s : string) : scanned json :=
  match fuel with
  | O => Starved
  | S fuel' =>
      match s with
      | EmptyString => Stopped
      | String c s1 =>
          if decide (c = quote) then
            match scan_string EmptyString s1 with
            | Ok (str, rest) => Scanned (JString str) rest
            | Raise _ => Failed (message_error depth)
            end
          else if decide (c = "{"%char) then
            match depth with
            | O => Failed RecursionError
            | S depth' =>
                match skip_ws s1 with
                | String c2 s3 =>
                    if decide (c2 = "}"%char) then Scanned (JObject []) s3
                    else if decide (c2 = quote) then
                      match parse_pairs fuel' depth' s3 with
                      | Scanned pairs rest =>
                          Scanned (JObject (Dict.of_pairs pairs)) rest
                      | Stopped => Stopped
                      | Failed e => Failed e
                      | Starved => Starved
                      end
                    else Failed (message_error depth')
                | EmptyString => Failed (message_error depth')
                end
            end
          else if decide (c = "["%char) then
            match depth with
            | O => Failed RecursionError
            | S depth' =>
                match skip_ws s1 with
                | String c2 s3 =>
                    if decide (c2 = "]"%char) then Scanned (JArray []) s3
                    else
                      match parse_items fuel' depth' (String c2 s3) with
                      | Scanned items rest => Scanned (JArray items) rest
                      | Stopped => Stopped
                      | Failed e => Failed e
                      | Starved => Starved
                      end
                | EmptyString => Stopped
                end
            end
          else
            match literal depth s with
            | Some (Ok v, rest) => Scanned v rest
            | Some (Raise e, _) => Failed e
            | None => Stopped
            end
      end
  end

(** The members of an object, from just after the opening quote of a key. *)
with parse_pairs (fuel depth : nat) (s : string)
  : scanned (list (string * json)) :=
  match fuel with
  | O => Starved
  | S fuel' =>
      match scan_string EmptyString s with
      | Raise _ => Failed (message_error depth)
      | Ok (key, s1) =>
          match skip_ws s1 with
          | String c s2 =>
              if decide (c = ":"%char) then
                match parse_value fuel' depth (skip_ws s2) with
                | Stopped => Stopped
                | Failed e => Failed e
                | Starved => Starved
                | Scanned v s3 =>
                    match skip_ws s3 with
                    | String d s4 =>
                        if decide (d = "}"%char) then Scanned [(key, v)] s4
                        else if decide (d = ","%char) then
                          match skip_ws s4 with
                          | String q s5 =>
                              if decide (q = quote) then
                                match parse_pairs fuel' depth s5 with
                                | Scanned ps rest =>
                                    Scanned ((key, v) :: ps) rest
                                | Stopped => Stopped
                                | Failed e => Failed e
                                | Starved => Starved
                                end
                              else Failed (message_error depth)
                          | EmptyString => Failed (message_error depth)
                          end
                        else Failed (message_error depth)
                    | EmptyString => Failed (message_error depth)
                    end
                end
              else Failed (message_error depth)
          | EmptyString => Failed (message_error depth)
          end
      end
  end

(** The items of an array, from the first character of an item. *)
with parse_items (fuel depth : nat) (s : string) : scanned (list json) :=
  match fuel with
  | O => Starved
  | S fuel' =>
      match parse_value fuel' depth s with
      | Stopped => Stopped
      | Failed e => Failed e
      | Starved => Starved
      | Scanned v s1 =>
          match skip_ws s1 with
          | String d s2 =>
              if decide (d = "]"%char) then Scanned [v] s2
              else if decide (d = ","%char) then
                match parse_items fuel' depth (skip_ws s2) with
                | Scanned vs rest => Scanned (v :: vs) rest
                | Stopped => Stopped
                | Failed e => Failed e
                | Starved => Starved
                end
              else Failed (message_error depth)
          | EmptyString => Failed (message_error depth)
          end
      end
  end.

(** U+FEFF, which [loads] refuses at the front of a [str]. *)
Definition bom : string := Utf8.encode 65279.

(** [json.loads(s)].  Its three messages are built further up than those
    of the scanner: the one for a text that does not start with a value in
    [raw_decode], which takes the stack of two levels, the one for text
    after the value in [decode], which takes that of one, and the one for
    the mark U+FEFF in [loads] itself. *)
Definition loads (depth_limit : nat) (s : string) : result json :=
  if Str.startswith bom s then Raise JSONDecodeError
  else
    match parse_value (2 * String.length s + 1) depth_limit (skip_ws s) with
    | Scanned v rest =>
        match skip_ws rest with
        | EmptyString => Ok v
        | String _ _ =>
            if (1 <=? depth_limit)%nat then Raise JSONDecodeError
            else Raise RecursionError
        end
    | Stopped =>
        if (2 <=? depth_limit)%nat then Raise JSONDecodeError
        else Raise RecursionError
    | Failed e => Raise e
    | Starved => Raise RecursionError
    end.

End Json.


(** ** The operations of the Python runtime the program applies to the value
    of a document, with the exception each raises on a value of another
    type. *)

Module Py.

(** [int(s)] for a run of decimal digits [s], as the text a [\d+] captures
    always is: the number they write in base ten. *)
Fixpoint int_acc (fuel : nat) (acc : Z) (s : string) : Z :=
  match fuel with
  | O => acc
  | S fuel' =>
      match Unicode.digit s with
      | Some (d, s') => int_acc fuel' (10 * acc + d) s'
      | None => acc
      end
  end.
Definition int (s : string) : Z := int_acc (String.length s) 0 s.

(** [o.get(k, dflt)]: a method of [dict] only. *)
Definition get (o : json) (k : string) (dflt : json) : result json :=
  match o with
  | JObject d => Ok (default dflt (Dict.get k d))
  | _ => Raise AttributeError
  end.

(** The values a [for] loop over [v] binds: the items of a list, the keys
    of a dict, the characters of a str. *)
Definition iter (v : json) : result (list json) :=
  match v with
  | JArray items => Ok items
  | JObject d => Ok (JString <$> d.*1)
  | JString s => Ok (JString <$> Utf8.chars s)
  | _ => Raise TypeError
  end.

Definition is_str (k : string) (v : json) : bool :=
  match v with
  | JString s => bool_decide (s = k)
  | _ => false
  end.

(** [k in v], for a str [k]: a key of a dict, an item of a list, a
    substring of a str. *)
Definition contains (k : string) (v : json) : result bool :=
  match v with
  | JObject d => Ok (Dict.mem k d)
  | JArray items => Ok (existsb (is_str k) items)
  | JString s => Ok (Str.contains k s)
  | _ => Raise TypeError
  end.

(** [v[k]], for a str [k] *)
Definition getitem (v : json) (k : string) : result json :=
  match v with
  | JObject d =>
      match Dict.get k d with
      | Some x => Ok x
      | None => Raise KeyError
      end
  | _ => Raise TypeError
  end.

(** [acc += v], for a str [acc] *)
Definition iadd (acc : string) (v : json) : result string :=
  match v with
  | JString s => Ok (acc +:+ s)
  | _ => Raise TypeError
  end.

End Py.

(** ** The collaborators: object storage, the OCR service, the random source

    The client objects the program creates ([storage.Client()],
    [vision.ImageAnnotatorClient()]) hold no state of their own here: a call
    on them reads or changes the [World]. *)

(** An object of a bucket: its name and its bytes. *)
Record Blob : Type := { name : string; data : string }.

Inductive FeatureType : Type :=
| TYPE_UNSPECIFIED
| FACE_DETECTION
| LANDMARK_DETECTION
| LOGO_DETECTION
| LABEL_DETECTION
| TEXT_DETECTION
| DOCUMENT_TEXT_DETECTION
| SAFE_SEARCH_DETECTION
| IMAGE_PROPERTIES
| CROP_HINTS
| WEB_DETECTION
| PRODUCT_SEARCH
| OBJECT_LOCALIZATION.

Record Feature : Type := { type_ : FeatureType }.
Record GcsSource : Type := { source_uri : string }.
Record InputConfig : Type := { gcs_source : GcsSource; mime_type : string }.
Record GcsDestination : Type := { destination_uri : string }.
Record OutputConfig : Type :=
  { gcs_destination : GcsDestination; batch_size : Z }.
Record AsyncAnnotateFileRequest : Type :=
  { features : list Feature;
    input_config : InputConfig;
    output_config : OutputConfig }.

(** What the OCR service does with a batch: whether it accepts it, how many
    seconds the operation runs, and what the operation ends in, an error or
    the change it has made to the stored objects by then. *)
Record OcrRun : Type :=
  { accepted : bool;
    duration : Z;
    outcome : result (gmap string (list Blob) → gmap string (list Blob)) }.

(** A call to a collaborator. *)
Inductive Event : Type :=
| EvUuid4 (hex : string)
| EvGetBucket (bucket : string)
| EvListBlobs (bucket prefix : string)
| EvDelete (bucket blob : string)
| EvDownload (bucket blob : string)
| EvPrint (line : string)
| EvAnnotate (requests : list AsyncAnnotateFileRequest)
| EvResult (timeout : Z).

Record World : Type :=
  { buckets : gmap string (list Blob);   (* per bucket, its objects in the
                                            order the service lists them *)
    urandom : nat → Z;                   (* the draws of 16 random bytes *)
    draws : nat;                         (* how many were taken *)
    ocr : list AsyncAnnotateFileRequest → OcrRun;
    trace : list Event }.                (* the calls made, oldest first *)

Definition set_buckets (f : gmap string (list Blob) → gmap string (list Blob))
    (w : World) : World :=
  {| buckets := f (buckets w); urandom := urandom w; draws := draws w;
     ocr := ocr w; trace := trace w |}.

Definition log (e : Event) (w : World) : World :=
  {| buckets := buckets w; urandom := urandom w; draws := draws w;
     ocr := ocr w; trace := trace w ++ [e] |}.

Definition draw (w : World) : World :=
  {| buckets := buckets w; urandom := urandom w; draws := S (draws w);
     ocr := ocr w; trace := trace w |}.

(** ** The monad of effectful code *)

Definition M (A : Type) : Type := World → result A * World.

Definition ret {A} (a : A) : M A := λ w, (Ok a, w).
Definition raise {A} (e : exn) : M A := λ w, (Raise e, w).
Definition lift {A} (r : result A) : M A := λ w, (r, w).
Definition bind {A B} (m : M A) (f : A → M B) : M B :=
  λ w, match m w with
       | (Ok a, w') => f a w'
       | (Raise e, w') => (Raise e, w')
       end.
Definition emit (e : Event) : M unit := λ w, (Ok (), log e w).

Declare Scope M_scope.
Delimit Scope M_scope with M.
Notation "'let!' x := m 'in' k" := (bind m (λ x, k))
  (at level 10, x name, m at level 100, k at level 200) : M_scope.
Notation "m ;; k" := (bind m (λ _, k))
  (at level 100, k at level 200, right associativity) : M_scope.

Local Open Scope M_scope.

(** [for x in l: body x] *)
Fixpoint for_each {A} (l : list A) (body : A → M unit) : M unit :=
  match l with
  | [] => ret ()
  | x :: l' => body x ;; for_each l' body
  end.

(** A [for] loop that updates one variable. *)
Fixpoint for_fold {A S} (l : list A) (body : S → A → M S) (s : S) : M S :=
  match l with
  | [] => ret s
  | x :: l' => let! s' := body s x in for_fold l' body s'
  end.

(** The same loop in code that calls no collaborator. *)
Fixpoint rfold {A S} (l : list A) (body : S → A → result S) (s : S)
  : result S :=
  match l with
  | [] => Ok s
  | x :: l' => rbind (body s x) (rfold l' body)
  end.

(** *** Object storage *)

Definition named (n : string) (b : Blob) : bool := bool_decide (name b = n).

(** [storage_client.get_bucket(bucket_name)]: a handle on an existing
    bucket. *)
Definition get_bucket (bucket_name : string) : M string :=
  emit (EvGetBucket bucket_name) ;;
  λ w, match buckets w !! bucket_name with
       | Some _ => (Ok bucket_name, w)
       | None => (Raise NotFound, w)
       end.

(** [bucket.list_blobs(prefix=prefix)]: the objects whose name starts with
    [prefix]. *)
Definition list_blobs (bucket prefix : string) : M (list Blob) :=
  emit (EvListBlobs bucket prefix) ;;
  λ w, match buckets w !! bucket with
       | Some objs =>
           (Ok (List.filter (λ b, Str.startswith prefix (name b)) objs), w)
       | None => (Raise NotFound, w)
       end.

(** [blob.delete()] *)
Definition blob_delete (bucket : string) (blob : Blob) : M unit :=
  emit (EvDelete bucket (name blob)) ;;
  λ w, match buckets w !! bucket with
       | Some objs =>
           if existsb (named (name blob)) objs then
             (Ok (),
              set_buckets
                <[bucket := List.filter (λ b, negb (named (name blob) b)) objs]>
                w)
           else (Raise NotFound, w)
       | None => (Raise NotFound, w)
       end.

(** [blob.download_as_bytes()] *)
Definition download_as_bytes (bucket : string) (blob : Blob) : M string :=
  emit (EvDownload bucket (name blob)) ;;
  λ w, match buckets w !! bucket with
       | Some objs =>
           match List.find (named (name blob)) objs with
           | Some b => (Ok (data b), w)
           | None => (Raise NotFound, w)
           end
       | None => (Raise NotFound, w)
       end.

Definition print (line : string) : M unit := emit (EvPrint line).

(** *** Random identifiers *)

Module Uuid.

(** [UUID(bytes=..., version=4).int] for the integer [r] of the 16 bytes *)
Definition uuid4 (r : Z) : Z :=
  let i := Z.land r (Z.lnot (Z.shiftl 0xc000 48)) in
  let i := Z.lor i (Z.shiftl 0x8000 48) in
  let i := Z.land i (Z.lnot (Z.shiftl 0xf000 64)) in
  Z.lor i (Z.shiftl 4 76).

Definition hex_digit (d : Z) : ascii :=
  if d <? 10 then Utf8.chr (48 + d) else Utf8.chr (87 + d).

Fixpoint hex_digits (n : nat) (x : Z) (acc : string) : string :=
  match n with
  | O => acc
  | S n' => hex_digits n' (x / 16) (String (hex_digit (x mod 16)) acc)
  end.

(** ['%032x' % x] for [0 <= x < 2^128] *)
Definition hex (x : Z) : string := hex_digits 32 x EmptyString.

End Uuid.

(** [uuid.uuid4().hex] *)
Definition uuid4_hex : M string :=
  λ w, let id := Uuid.hex (Uuid.uuid4 (urandom w (draws w) mod 2 ^ 128)) in
       (Ok id, log (EvUuid4 id) (draw w)).

(** *** The OCR service *)

(** [client.async_batch_annotate_files(requests=requests)] *)
Definition async_batch_annotate_files
    (requests : list AsyncAnnotateFileRequest) : M OcrRun :=
  emit (EvAnnotate requests) ;;
  λ w, let operation := ocr w requests in
       if accepted operation then (Ok operation, w)
       else (Raise ServiceError, w).

(** [operation.result(timeout=timeout)] *)
Definition operation_result (operation : OcrRun) (timeout : Z) : M unit :=
  emit (EvResult timeout) ;;
  λ w, if timeout <? duration operation then (Raise TimeoutError, w)
       else match outcome operation with
            | Ok written => (Ok (), set_buckets written w)
            | Raise e => (Raise e, w)
            end.

(** ** The program *)

Definition clear_ocr_output_folder (bucket_name prefix : string) : M unit :=
  let! bucket := get_bucket bucket_name in
  let! blobs := list_blobs bucket prefix in
  for_each blobs (λ blob, blob_delete bucket blob) ;;
  print ("All blobs with prefix '" +:+ prefix
         +:+ "' have been deleted from bucket '" +:+ bucket_name +:+ "'.").

(** The key function, local to [get_ocr_output_from_bucket] in the source. *)
Definition extract_page_number (blob : Blob) : Z :=
  match Re.re_search page_re (name blob) with
  | Some m => Py.int (Re.group m 1)
  | None => -1
  end.

(** [sorted(l, key=key)]: the stable sort in ascending order of the keys.
    An item goes in front of the first item whose key is not below its own,
    so it stays ahead of the later items of the same key. *)
Fixpoint insert_by {A} (key : A → Z) (x : A) (l : list A) : list A :=
  match l with
  | [] => [x]
  | y :: l' => if key x <=? key y then x :: l else y :: insert_by key x l'
  end.

Definition sorted {A} (key : A → Z) (l : list A) : list A :=
  foldr (insert_by key) [] l.

(** The body of the loop over the pages of one document. *)
Definition add_page_text (complete_text : string) (page_response : json)
  : result string :=
  (let? has := Py.contains "fullTextAnnotation" page_response in
   if (has : bool) then
     let? annotation := Py.getitem page_response "fullTextAnnotation" in
     let? text := Py.get annotation "text" (JString EmptyString) in
     Py.iadd complete_text text
   else Ok complete_text)%result.

(** What the bytes of one output file add to the text. *)
Definition add_document_text (depth_limit : nat)
    (complete_text : string) (bytes : string) : result string :=
  (let? json_string := Utf8.decode bytes in
   let? response := Json.loads depth_limit json_string in
   let? responses := Py.get response "responses" (JArray []) in
   let? pages := Py.iter responses in
   rfold pages add_page_text complete_text)%result.

(** The body of the loop over the sorted blobs. *)
Definition add_blob_text (depth_limit : nat) (bucket : string)
    (complete_text : string) (output : Blob) : M string :=
  if negb (Str.endswith (name output) "/") then
    let! bytes := download_as_bytes bucket output in
    lift (add_document_text depth_limit complete_text bytes)
  else ret complete_text.

Definition get_ocr_output_from_bucket (depth_limit : nat)
    (gcs_destination_uri bucket_name : string) : M string :=
  let! prefix :=
    match Re.re_match uri_re gcs_destination_uri with
    | Some m => ret (Re.group m 2)
    | None => raise AttributeError
    end in
  let! bucket := get_bucket bucket_name in
  let! blobs := list_blobs bucket prefix in
  let sorted_blobs := sorted extract_page_number blobs in
  for_fold sorted_blobs (add_blob_text depth_limit bucket) EmptyString.

Definition async_document_extract (depth_limit : nat)
    (bucket name output_bucket : string) (timeout : option Z) : M string :=
  let timeout := default 420 timeout in
  let! unique_id := uuid4_hex in
  let prefix := "ocr/" +:+ unique_id in
  clear_ocr_output_folder output_bucket prefix ;;
  let gcs_source_uri := "gs://" +:+ bucket +:+ "/" +:+ name in
  let gcs_destination_uri :=
    "gs://" +:+ output_bucket +:+ "/" +:+ prefix +:+ "/" in
  let mime_type := "application/pdf" in
  let batch_size := 2 in
  let feature := {| type_ := DOCUMENT_TEXT_DETECTION |} in
  let gcs_source := {| source_uri := gcs_source_uri |} in
  let input_config :=
    {| gcs_source := gcs_source; mime_type := mime_type |} in
  let gcs_destination := {| destination_uri := gcs_destination_uri |} in
  let output_config :=
    {| gcs_destination := gcs_destination; batch_size := batch_size |} in
  let async_request :=
    {| features := [feature]; input_config := input_config;
       output_config := output_config |} in
  let! operation := async_batch_annotate_files [async_request] in
  print "OCR: waiting for the operation to finish." ;;
  operation_result operation timeout ;;
  get_ocr_output_from_bucket depth_limit gcs_destination_uri output_bucket.

(** * The vocabulary of the properties *)

Section vocabulary.

Import Re.
Implicit Types (c : cls) (s : string).

(** The inputs left after each way to match [c+] at the front of [s], the
    longest match first. *)
Fixpoint rests c s : list string :=
  match s with
  | EmptyString => []
  | String a s' => if cls_match c a then rests c s' ++ [s'] else []
  end.

Fixpoint first_some {A B} (k : A → option B) (l : list A) : option B :=
  match l with
  | [] => None
  | x :: l' => match k x with Some y => Some y | None => first_some k l' end
  end.

(** [c] does not match at the front of [s]. *)
Definition stops c s : Prop :=
  match s with
  | EmptyString => True
  | String a _ => cls_match c a = false
  end.

(** [uri] reads as [gs://<bucket>/<path>]: a bucket name without a slash and
    a path, neither empty.  As [.] stops at a line feed, the path is a single
    line: it runs to the end of [uri] or to its first line feed. *)
Definition gs_uri (uri bucket path : string) : Prop :=
  ∃ tail,
    uri = "gs://" +:+ bucket +:+ "/" +:+ path +:+ tail
    ∧ bucket ≠ EmptyString
    ∧ Str.all (λ a, bool_decide (a ≠ "/"%char)) bucket = true
    ∧ path ≠ EmptyString
    ∧ Str.all (λ a, bool_decide (a ≠ line_feed)) path = true
    ∧ (tail = EmptyString ∨ ∃ t, tail = String line_feed t).

(** The values of the decimal digits [s] is made of, when it is made of
    nothing else. *)
Fixpoint digit_values (fuel : nat) (s : string) : option (list Z) :=
  match s with
  | EmptyString => Some []
  | String _ _ =>
      match fuel with
      | O => None
      | S fuel' =>
          match Unicode.digit s with
          | Some (d, s') => cons d <$> digit_values fuel' s'
          | None => None
          end
      end
  end.

Definition decimal_digits (s : string) : option (list Z) :=
  digit_values (String.length s) s.

(** The number the digits [ds] write in base ten, the leading digit
    first. *)
Definition decimal_value (ds : list Z) : Z :=
  foldl (λ acc d, 10 * acc + d) 0 ds.

(** [s] holds a page range that starts with the digits [n], of the values
    [ds]: [output-], the digits [n], [-to-] and one digit more, after the
    text [pre]. *)
Definition page_range_at (pre s n : string) (ds : list Z) : Prop :=
  ∃ rest,
    s = pre +:+ "output-" +:+ n +:+ "-to-" +:+ rest
    ∧ decimal_digits n = Some ds
    ∧ ds ≠ []
    ∧ is_Some (Unicode.digit rest).

(** The first page range of [s] starts with the digits [n], of the values
    [ds]: no page range of [s] begins further to the left. *)
Definition first_page_range (s n : string) (ds : list Z) : Prop :=
  ∃ pre,
    page_range_at pre s n ds
    ∧ ∀ pre' n' ds', page_range_at pre' s n' ds' →
        (String.length pre ≤ String.length pre')%nat.

End vocabulary.

(** The name of [blob] has a page range. *)
Definition has_page_range (blob : Blob) : Prop :=
  ∃ pre n ds, page_range_at pre (name blob) n ds.

(** The longest name the storage service gives an object, in bytes. *)
Definition max_name_length : nat := 1024.

(** The names of [blobs] are names of the storage service. *)
Definition storable (blobs : list Blob) : Prop :=
  Forall (λ b, (String.length (name b) ≤ max_name_length)%nat) blobs.

(** Ascending order of the keys. *)
Definition by_key {A} (key : A → Z) : relation A := λ x y, key x ≤ key y.

(** The items of key [k]. *)
Definition keyed {A} (key : A → Z) (k : Z) (l : list A) : list A :=
  List.filter (λ x, key x =? k) l.

(** The objects [list_blobs] returns for a prefix. *)
Definition listing (prefix : string) (objs : list Blob) : list Blob :=
  List.filter (λ b, Str.startswith prefix (name b)) objs.

(** A blob that is not a folder marker. *)
Definition is_file (blob : Blob) : bool := negb (Str.endswith (name blob) "/").

(** The text the loop over [blobs] builds from [acc]: the documents of the
    files, added in the order of the list. *)
Definition texts_of (depth_limit : nat) (blobs : list Blob) (acc : string)
  : result string :=
  rfold (List.filter is_file blobs)
    (λ acc b, add_document_text depth_limit acc (data b)) acc.

(** Two objects of one name that differ at most in the bytes of a folder
    marker. *)
Definition same_file (o o' : Blob) : Prop :=
  name o = name o' ∧ (is_file o = true → data o = data o').

(** ** The text of well-formed output *)

Fixpoint join (l : list string) : string :=
  match l with
  | [] => EmptyString
  | x :: l' => x +:+ join l'
  end.

(** The text a page response holds: the text value of its full-text
    annotation when both are there, nothing otherwise. *)
Definition page_text (page : json) : string :=
  match page with
  | JObject d =>
      match Dict.get "fullTextAnnotation" d with
      | Some (JObject f) =>
          match Dict.get "text" f with
          | Some (JString t) => t
          | _ => EmptyString
          end
      | _ => EmptyString
      end
  | _ => EmptyString
  end.

(** The text a document holds: the texts of the pages of its [responses], in
    the order of the array; nothing without the field. *)
Definition document_text (v : json) : string :=
  match v with
  | JObject d =>
      match Dict.get "responses" d with
      | Some (JArray pages) => join (page_text <$> pages)
      | _ => EmptyString
      end
  | _ => EmptyString
  end.

Definition blob_text (depth_limit : nat) (blob : Blob) : string :=
  match Json.loads depth_limit (data blob) with
  | Ok v => document_text v
  | Raise _ => EmptyString
  end.

(** A page response as the service writes it: an object whose full-text
    annotation, if any, is an object whose text, if any, is a string. *)
Definition page_ok (page : json) : bool :=
  match page with
  | JObject d =>
      match Dict.get "fullTextAnnotation" d with
      | None => true
      | Some (JObject f) =>
          match Dict.get "text" f with
          | None | Some (JString _) => true
          | Some _ => false
          end
      | Some _ => false
      end
  | _ => false
  end.

(** A document as the service writes it: an object whose [responses], if
    any, is an array of page responses. *)
Definition document_ok (v : json) : bool :=
  match v with
  | JObject d =>
      match Dict.get "responses" d with
      | None => true
      | Some (JArray pages) => forallb page_ok pages
      | Some _ => false
      end
  | _ => false
  end.

Definition blob_ok (depth_limit : nat) (blob : Blob) : bool :=
  Utf8.valid (data blob)
  && match Json.loads depth_limit (data blob) with
     | Ok v => document_ok v
     | Raise _ => false
     end.

(** ** The fuel of the parser *)

(** With fuel beyond twice the length of its input, a scanning function does
    not run out of it, and what it leaves is shorter than what it got. *)
Definition enough_fuel {A} (parse : nat → nat → string → Json.scanned A)
    (slack fuel : nat) : Prop :=
  ∀ depth s, (2 * String.length s + slack < fuel)%nat →
    parse fuel depth s ≠ Json.Starved
    ∧ ∀ a r, parse fuel depth s = Json.Scanned a r →
        (String.length r < String.length s)%nat.

(** ** Traces *)

(** A call to the storage service, or a printed line. *)
Definition is_storage (e : Event) : bool :=
  match e with
  | EvGetBucket _ | EvListBlobs _ _ | EvDelete _ _ | EvDownload _ _
  | EvPrint _ => true
  | EvUuid4 _ | EvAnnotate _ | EvResult _ => false
  end.

(** The batches submitted to the OCR service, oldest first. *)
Fixpoint submissions (evs : list Event)
  : list (list AsyncAnnotateFileRequest) :=
  match evs with
  | [] => []
  | EvAnnotate requests :: evs' => requests :: submissions evs'
  | _ :: evs' => submissions evs'
  end.

(** The timeouts of the waits on an operation, oldest first. *)
Fixpoint waits (evs : list Event) : list Z :=
  match evs with
  | [] => []
  | EvResult timeout :: evs' => timeout :: waits evs'
  | _ :: evs' => waits evs'
  end.

(** The calls a run of [m] from [w] adds to the trace. *)
Definition events_of {A} (m : M A) (w : World) : list Event :=
  drop (length (trace w)) (trace (m w).2).

(** [m] calls nothing but the storage service and leaves the random source
    and the OCR service as they are. *)
Definition storage_only {A} (m : M A) : Prop :=
  ∀ w, ∃ evs,
    trace (m w).2 = trace w ++ evs
    ∧ forallb is_storage evs = true
    ∧ urandom (m w).2 = urandom w
    ∧ draws (m w).2 = draws w
    ∧ ocr (m w).2 = ocr w.

(** ** The OCR job *)

(** The identifier the next call of [uuid4] yields in [w]. *)
Definition next_id (w : World) : string :=
  Uuid.hex (Uuid.uuid4 (urandom w (draws w) mod 2 ^ 128)).

(** The request of a job: document text detection alone, the PDF
    [gs://bucket/name] as input, [gs://output_bucket/ocr/<id>/] as output
    location, two pages to a file. *)
Definition ocr_request (bucket name output_bucket unique_id : string)
  : AsyncAnnotateFileRequest :=
  {| features := [{| type_ := DOCUMENT_TEXT_DETECTION |}];
     input_config :=
       {| gcs_source := {| source_uri := "gs://" +:+ bucket +:+ "/" +:+ name |};
          mime_type := "application/pdf" |};
     output_config :=
       {| gcs_destination :=
            {| destination_uri :=
                 "gs://" +:+ output_bucket +:+ "/ocr/" +:+ unique_id +:+ "/" |};
          batch_size := 2 |} |}.

(** The part of [async_document_extract] after the cleanup. *)
Definition submit_and_collect (depth_limit : nat)
    (request : AsyncAnnotateFileRequest) (timeout : Z)
    (output_bucket : string) : M string :=
  (let! operation := async_batch_annotate_files [request] in
   print "OCR: waiting for the operation to finish." ;;
   operation_result operation timeout ;;
   get_ocr_output_from_bucket depth_limit
     (destination_uri (gcs_destination (output_config request)))
     output_bucket)%M.

(** ** What reading does and raises *)

(** [m] leaves the stored objects as they are. *)
Definition read_only {A} (m : M A) : Prop :=
  ∀ w, buckets (m w).2 = buckets w.




(** The downloads of [blobs], in their order. *)
Definition downloads (bucket : string) (blobs : list Blob) : list Event :=
  (λ b, EvDownload bucket (name b)) <$> blobs.

(** The exceptions of the scanner. *)
Definition scan_error (e : exn) : Prop :=
  e = JSONDecodeError ∨ e = RecursionError ∨ e = ValueError.


(** ** What cleanup may change *)

(** From [before] to [after], nothing was added or changed, no bucket but
    [bucket_name] was touched, and every object of [bucket_name] whose name
    does not start with [prefix] is still there. *)
Definition only_removes_under (bucket_name prefix : string)
    (before after : gmap string (list Blob)) : Prop :=
  (∀ other, other ≠ bucket_name → after !! other = before !! other)
  ∧ match before !! bucket_name with
    | None => after !! bucket_name = None
    | Some objs =>
        ∃ objs',
          after !! bucket_name = Some objs'
          ∧ (∀ o, o ∈ objs' → o ∈ objs)
          ∧ (∀ o, o ∈ objs → Str.startswith prefix (name o) = false →
               o ∈ objs')
    end.

(** A lowercase hexadecimal digit. *)
Definition is_lower_hex (c : ascii) : bool :=
  let n := Utf8.code c in
  (48 <=? n) && (n <=? 57) || (97 <=? n) && (n <=? 102).

(** * Sample data *)

Module Sample.

(** A nesting depth the interpreter allows [json.loads] in a function called
    near the top level. *)
Definition depth_limit : nat := 990.

(** A JSON text, written with ['] where the text has a double quote. *)
Fixpoint json_text (s : string) : string :=
  match s with
  | EmptyString => EmptyString
  | String c s' =>
      String (if decide (c = "'"%char) then Json.quote else c) (json_text s')
  end.

Definition hello : Blob :=
  {| name := "ocr/x/output-1-to-2.json";
     data := json_text
       "{'responses':[{'fullTextAnnotation':{'text':'Hello '}}]}" |}.

Definition world : Blob :=
  {| name := "ocr/x/output-3-to-4.json";
     data := json_text
       "{'responses':[{'fullTextAnnotation':{'text':'World'}}]}" |}.

Definition manifest : Blob :=
  {| name := "ocr/x/manifest.json"; data := json_text "{'pages':4}" |}.

Definition folder : Blob := {| name := "ocr/x/"; data := "placeholder" |}.

(** Pages without an annotation, and an annotation without a text. *)
Definition sparse : Blob :=
  {| name := "ocr/x/output-5-to-6.json";
     data := json_text
       "{'responses':[{},{'fullTextAnnotation':{}},{'fullTextAnnotation':{'text':'!'}}]}" |}.

Definition other : Blob := {| name := "summaries/x.txt"; data := "kept" |}.

(** The OCR service: it takes [seconds] and then stores [written] in the
    bucket [out]. *)
Definition service (seconds : Z) (written : list Blob)
    (requests : list AsyncAnnotateFileRequest) : OcrRun :=
  {| accepted := true;
     duration := seconds;
     outcome := Ok (λ store, <["out" := default [] (store !! "out") ++ written]> store) |}.

(** A world whose only bucket, [out], holds [objs]. *)
Definition store (objs : list Blob) : World :=
  {| buckets := {["out" := objs]};
     urandom := λ n, 2 ^ 100 + Z.of_nat n;
     draws := 0;
     ocr := service 30 [];
     trace := [] |}.

(** The files the service writes for a four-page document of the job
    [unique_id], the later pages first. *)
Definition written (unique_id : string) : list Blob :=
  [ {| name := "ocr/" +:+ unique_id +:+ "/output-3-to-4.json";
       data := data world |};
    {| name := "ocr/" +:+ unique_id +:+ "/output-1-to-2.json";
       data := data hello |} ].

(** A world whose OCR service writes these files in half a minute. *)
Definition job : World :=
  {| buckets := {["out" := [other]]};
     urandom := λ n, 2 ^ 100 + Z.of_nat n;
     draws := 0;
     ocr := service 30 (written "00000010000040008000000000000000");
     trace := [] |}.

(** A world whose OCR service refuses every batch. *)
Definition refusing : World :=
  {| buckets := {["out" := []]};
     urandom := λ n, 2 ^ 100 + Z.of_nat n;
     draws := 0;
     ocr := λ _, {| accepted := false; duration := 0;
                    outcome := Raise ServiceError |};
     trace := [] |}.

(** A world whose OCR service takes ten minutes. *)
Definition slow : World :=
  {| buckets := {["out" := []]};
     urandom := λ n, 2 ^ 100 + Z.of_nat n;
     draws := 0;
     ocr := service 600 [];
     trace := [] |}.


Definition page9 : Blob :=
  {| name := "ocr/x/output-9-to-10.json";
     data := json_text
       "{'responses':[{'fullTextAnnotation':{'text':'nine '}}]}" |}.

Definition page11 : Blob :=
  {| name := "ocr/x/output-11-to-12.json";
     data := json_text
       "{'responses':[{'fullTextAnnotation':{'text':'eleven'}}]}" |}.

(** A document of [n] arrays, one inside the other. *)
Definition nested (n : nat) : string :=
  Nat.iter n (String "[") (Nat.iter n (String "]") EmptyString).

(** A file nested one deeper than [depth_limit] allows. *)
Definition deep : Blob :=
  {| name := "ocr/x/output-1-to-2.json"; data := nested (S depth_limit) |}.

(** A file that holds an integer of 4301 digits. *)
Definition long_integer : Blob :=
  {| name := "ocr/x/output-1-to-2.json";
     data := Nat.iter (S int_max_str_digits) (String "7") EmptyString |}.

(** A file whose document is an array, not an object. *)
Definition listed : Blob :=
  {| name := "ocr/x/output-1-to-2.json"; data := "[]" |}.

(** A file with a page whose annotation is an array, not an object. *)
Definition odd_annotation : Blob :=
  {| name := "ocr/x/output-1-to-2.json";
     data := json_text "{'responses':[{'fullTextAnnotation':[]}]}" |}.

(** A page range written in Arabic-Indic digits: the pages 12 to 13. *)
Definition page12 : Blob :=
  {| name := "ocr/x/output-١٢-to-١٣.json";
     data := json_text
       "{'responses':[{'fullTextAnnotation':{'text':'twelve'}}]}" |}.

(** A world whose OCR operation ends in an error after five seconds. *)
Definition failing : World :=
  {| buckets := {["out" := [other]]};
     urandom := λ n, 2 ^ 100 + Z.of_nat n;
     draws := 0;
     ocr := λ _, {| accepted := true; duration := 5;
                    outcome := Raise ServiceError |};
     trace := [] |}.

End Sample.

(** * Properties *)

#[local] Arguments String.append !_ _ / : simpl nomatch.

(** ** Strings *)

Section string_facts.

Implicit Types s r run lit : string.

Lemma app_empty_r s : s +:+ EmptyString = s.
Proof. induction s as [|a s IH]; simpl; [done | by f_equal]. Qed.

Lemma app_assoc' s r t : (s +:+ r) +:+ t = s +:+ (r +:+ t).
Proof. induction s as [|a s IH]; simpl; [done | by f_equal]. Qed.

Lemma app_length' s r :
  String.length (s +:+ r) = (String.length s + String.length r)%nat.
Proof. induction s as [|a s IH]; simpl; [done | by f_equal]. Qed.

Lemma app_inv_self run s : run +:+ s = s → run = EmptyString.
Proof.
  intros H. apply (f_equal String.length) in H.
  rewrite app_length' in H. destruct run; [done | simpl in H; lia].
Qed.

Lemma chop_app lit r : Str.chop lit (lit +:+ r) = Some r.
Proof.
  induction lit as [|a lit IH]; simpl; [by destruct r |].
  by rewrite decide_True.
Qed.

Lemma chop_Some lit s r : Str.chop lit s = Some r → s = lit +:+ r.
Proof.
  revert s. induction lit as [|a lit IH]; intros [|b s]; simpl; try congruence.
  case_decide as E; [|done]. intros Hc. subst b. f_equal. by apply IH.
Qed.

Lemma startswith_app pre r : Str.startswith pre (pre +:+ r) = true.
Proof.
  induction pre as [|a pre IH]; simpl; [done |]. by rewrite decide_True.
Qed.

Lemma startswith_true pre s :
  Str.startswith pre s = true → ∃ r, s = pre +:+ r.
Proof.
  revert s. induction pre as [|a pre IH]; intros s; simpl.
  - eauto.
  - destruct s as [|b s]; [done |]. case_decide; [|done].
    intros [r ->]%IH. subst b. eauto.
Qed.

Lemma endswith_app pre suf : Str.endswith (pre +:+ suf) suf = true.
Proof.
  induction pre as [|a pre IH]; simpl.
  - destruct suf; simpl; [done |]. by case_decide.
  - case_decide; [done | apply IH].
Qed.

Lemma endswith_true s suf :
  Str.endswith s suf = true → ∃ pre, s = pre +:+ suf.
Proof.
  induction s as [|a s IH]; simpl.
  - case_decide; [|done]. intros _. exists EmptyString. by subst suf.
  - case_decide as E.
    + intros _. exists EmptyString. by subst suf.
    + intros [pre ->]%IH. by exists (String a pre).
Qed.

Lemma consumed_app run r : Str.consumed (run +:+ r) r = run.
Proof.
  induction run as [|a run IH].
  - simpl. destruct r; simpl; [done |]. by case_decide.
  - change (String a run +:+ r) with (String a (run +:+ r)).
    simpl. case_decide as E.
    + change (String a (run +:+ r)) with (String a run +:+ r) in E.
      by apply app_inv_self in E.
    + by rewrite IH.
Qed.

Lemma all_app p s r :
  Str.all p (s +:+ r) = Str.all p s && Str.all p r.
Proof.
  induction s as [|a s IH]; simpl; [done |].
  by rewrite IH, andb_assoc.
Qed.

End string_facts.

(** ** Decimal digits *)

Section digit_facts.

Import Unicode.
Implicit Types (s r n : string) (ds : list Z).

Lemma uncons_split s c s' :
  Utf8.uncons s = Some (c, s') →
  ∃ ch, s = ch +:+ s' ∧ ch ≠ EmptyString
        ∧ ∀ r, Utf8.uncons (ch +:+ r) = Some (c, r).
Proof.
  unfold Utf8.uncons. destruct s as [|a s1]; [done |].
  destruct (Utf8.code a <? 128) eqn:E1.
  { intros [= <- <-]. exists (String a EmptyString).
    repeat split; [done |]. intros r. simpl. by rewrite E1. }
  destruct s1 as [|b s2]; [done |].
  destruct ((194 <=? Utf8.code a) && (Utf8.code a <? 224)) eqn:E2.
  { destruct (Utf8.is_cont b) eqn:Eb; [|done]. intros [= <- <-].
    exists (String a (String b EmptyString)).
    repeat split; [done |]. intros r. simpl. by rewrite E1, E2, Eb. }
  destruct s2 as [|c2 s3]; [done |].
  destruct ((224 <=? Utf8.code a) && (Utf8.code a <? 240)) eqn:E3.
  { match goal with |- context [if ?g then _ else _] =>
      destruct g eqn:Eg; [|done] end.
    intros [= <- <-].
    exists (String a (String b (String c2 EmptyString))).
    repeat split; [done |]. intros r. simpl. by rewrite E1, E2, E3, Eg. }
  destruct s3 as [|d s4]; [done |].
  match goal with |- context [if ?g then _ else _] =>
    destruct g eqn:Eg; [|done] end.
  intros [= <- <-].
  exists (String a (String b (String c2 (String d EmptyString)))).
  repeat split; [done |]. intros r. simpl. by rewrite E1, E2, E3, Eg.
Qed.

Lemma digit_split s d s' :
  digit s = Some (d, s') →
  ∃ ch, s = ch +:+ s' ∧ ch ≠ EmptyString
        ∧ ∀ r, digit (ch +:+ r) = Some (d, r).
Proof.
  unfold digit. destruct (Utf8.uncons s) as [[c t]|] eqn:E; [|done].
  destruct (decimal c) as [d'|] eqn:Ed; [|done]. intros [= <- <-].
  destruct (uncons_split _ _ _ E) as (ch & -> & Hne & Hch).
  exists ch. repeat split; [done |]. intros r. by rewrite Hch, Ed.
Qed.

Lemma digit_app s d s' r :
  digit s = Some (d, s') → digit (s +:+ r) = Some (d, s' +:+ r).
Proof.
  intros (ch & -> & _ & Hch)%digit_split. by rewrite app_assoc', Hch.
Qed.

Lemma digit_shorter s d s' :
  digit s = Some (d, s') → (String.length s' < String.length s)%nat.
Proof.
  intros (ch & -> & Hne & _)%digit_split. rewrite app_length'.
  destruct ch; [done | simpl; lia].
Qed.

Lemma decimal_in_bounds zeros c d :
  decimal_in zeros c = Some d → 0 ≤ d ≤ 9.
Proof.
  induction zeros as [|z zeros IH]; simpl; [done |].
  destruct ((z <=? c) && (c <=? z + 9)) eqn:E; [|done].
  intros [= <-]. apply andb_true_iff in E as [?%Z.leb_le ?%Z.leb_le]. lia.
Qed.

Lemma digit_bounds s d s' : digit s = Some (d, s') → 0 ≤ d ≤ 9.
Proof.
  unfold digit. destruct (Utf8.uncons s) as [[c t]|]; [|done].
  destruct (decimal c) as [d'|] eqn:Ed; [|done]. intros [= <- _].
  by apply decimal_in_bounds in Ed.
Qed.

Lemma digit_values_fuel fuel s :
  (String.length s ≤ fuel)%nat → digit_values fuel s = decimal_digits s.
Proof.
  unfold decimal_digits.
  assert (∀ f1 f2 t, (String.length t ≤ f1)%nat → (String.length t ≤ f2)%nat →
            digit_values f1 t = digit_values f2 t) as H.
  { induction f1 as [|f1 IH]; intros f2 t H1 H2.
    - destruct t; [by destruct f2 | simpl in H1; lia].
    - destruct t as [|a t]; [by destruct f2 |].
      destruct f2 as [|f2]; [simpl in H2; lia |].
      cbn [digit_values]. destruct (digit (String a t)) as [[d t']|] eqn:E;
        [|done].
      apply digit_shorter in E. rewrite (IH f2 t'); [done | lia | lia]. }
  intros Hf. by apply H.
Qed.

Lemma decimal_digits_step s d s' :
  digit s = Some (d, s') →
  decimal_digits s = cons d <$> decimal_digits s'.
Proof.
  intros E. unfold decimal_digits at 1.
  destruct s as [|a s]; [done |]. cbn [String.length digit_values].
  rewrite E. rewrite digit_values_fuel; [done |].
  apply digit_shorter in E. simpl in E. lia.
Qed.

Lemma decimal_digits_stop s :
  s ≠ EmptyString → digit s = None → decimal_digits s = None.
Proof.
  intros Hne E. unfold decimal_digits. destruct s as [|a s]; [done |].
  cbn [String.length digit_values]. by rewrite E.
Qed.

Lemma decimal_digits_cons n d ds :
  decimal_digits n = Some (d :: ds) →
  ∃ n', digit n = Some (d, n') ∧ decimal_digits n' = Some ds.
Proof.
  destruct n as [|a n]; [done |].
  destruct (digit (String a n)) as [[d' n']|] eqn:E.
  - rewrite (decimal_digits_step _ _ _ E).
    destruct (decimal_digits n') as [ds'|] eqn:Hn'; simpl; [|done].
    intros [= <- <-]. by exists n'.
  - by rewrite decimal_digits_stop.
Qed.

Lemma decimal_digits_nil n : decimal_digits n = Some [] → n = EmptyString.
Proof.
  destruct n as [|a n]; [done |].
  destruct (digit (String a n)) as [[d' n']|] eqn:E.
  - rewrite (decimal_digits_step _ _ _ E).
    by destruct (decimal_digits n').
  - by rewrite decimal_digits_stop.
Qed.

Lemma decimal_digits_length n ds :
  decimal_digits n = Some ds → (length ds ≤ String.length n)%nat.
Proof.
  revert n. induction ds as [|d ds IH]; intros n; [simpl; lia |].
  intros (n' & E & H)%decimal_digits_cons.
  apply digit_shorter in E. apply IH in H. simpl. lia.
Qed.

Lemma decimal_digits_bounds n ds :
  decimal_digits n = Some ds → Forall (λ d, 0 ≤ d ≤ 9) ds.
Proof.
  revert n. induction ds as [|d ds IH]; intros n; [constructor |].
  intros (n' & E & H)%decimal_digits_cons.
  constructor; [by eapply digit_bounds | by eapply IH].
Qed.

(** The digits in front of a text that starts with no digit are
    determined. *)
Lemma decimal_digits_unique n1 n2 ds1 ds2 t1 t2 :
  decimal_digits n1 = Some ds1 → decimal_digits n2 = Some ds2 →
  digit t1 = None → digit t2 = None →
  n1 +:+ t1 = n2 +:+ t2 → n1 = n2.
Proof.
  revert n1 n2 ds2. induction ds1 as [|d1 ds1 IH]; intros n1 n2 ds2 H1 H2 Ht1
      Ht2.
  - apply decimal_digits_nil in H1 as ->. simpl. intros ->.
    destruct ds2 as [|d2 ds2]; [by apply decimal_digits_nil in H2 |].
    apply decimal_digits_cons in H2 as (n' & E & _).
    apply (digit_app _ _ _ t2) in E. congruence.
  - apply decimal_digits_cons in H1 as (n1' & E1 & H1).
    destruct ds2 as [|d2 ds2].
    + apply decimal_digits_nil in H2 as ->. simpl. intros <-.
      apply (digit_app _ _ _ t1) in E1. congruence.
    + apply decimal_digits_cons in H2 as (n2' & E2 & H2). intros Heq.
      pose proof (digit_app _ _ _ t1 E1) as E1'.
      pose proof (digit_app _ _ _ t2 E2) as E2'.
      rewrite Heq, E2' in E1'. injection E1' as _ Hrest.
      assert (n1' = n2') as Hn by (eapply IH; eauto).
      destruct (digit_split _ _ _ E1) as (c1 & -> & _ & _).
      destruct (digit_split _ _ _ E2) as (c2 & -> & _ & _).
      subst n2'. rewrite !app_assoc' in Heq.
      rewrite <- Hrest in Heq.
      f_equal. clear -Heq.
      assert (∀ a b x, a +:+ x = b +:+ x → a = b) as Hcancel.
      { intros a. induction a as [|u a IHa]; intros b x H.
        - symmetry in H. apply app_inv_self in H. by subst.
        - destruct b as [|v b].
          + simpl in H. apply (app_inv_self (String u a)) in H. done.
          + simpl in H. injection H as -> H. f_equal. by eapply IHa. }
      by eapply Hcancel.
Qed.

(** *** [int] *)

Lemma int_acc_value fuel acc n ds :
  decimal_digits n = Some ds → (length ds ≤ fuel)%nat →
  Py.int_acc fuel acc n = foldl (λ acc d, 10 * acc + d) acc ds.
Proof.
  revert fuel acc n. induction ds as [|d ds IH]; intros fuel acc n H Hf.
  - apply decimal_digits_nil in H as ->. by destruct fuel.
  - apply decimal_digits_cons in H as (n' & E & H).
    destruct fuel as [|fuel]; [simpl in Hf; lia |].
    cbn [Py.int_acc]. rewrite E. simpl. apply IH; [done | simpl in Hf; lia].
Qed.

Lemma int_value n ds :
  decimal_digits n = Some ds → Py.int n = decimal_value ds.
Proof.
  intros H. apply int_acc_value; [done | by apply decimal_digits_length].
Qed.

Lemma foldl_digits_bounds ds acc :
  Forall (λ d, 0 ≤ d ≤ 9) ds → 0 ≤ acc →
  acc * 10 ^ Z.of_nat (length ds)
  ≤ foldl (λ acc d, 10 * acc + d) acc ds
  < (acc + 1) * 10 ^ Z.of_nat (length ds).
Proof.
  intros H. revert acc. induction H as [|d ds Hd _ IH]; intros acc Hacc.
  - simpl. lia.
  - cbn [foldl length]. rewrite Nat2Z.inj_succ, Z.pow_succ_r by lia.
    specialize (IH (10 * acc + d) ltac:(lia)).
    assert (0 < 10 ^ Z.of_nat (length ds)) by (apply Z.pow_pos_nonneg; lia).
    nia.
Qed.

Lemma decimal_value_nonneg ds :
  Forall (λ d, 0 ≤ d ≤ 9) ds → 0 ≤ decimal_value ds.
Proof.
  intros H. pose proof (foldl_digits_bounds ds 0 H ltac:(lia)).
  unfold decimal_value. lia.
Qed.

(** A number of more digits, the first of which is not zero, is the
    larger. *)
Lemma decimal_value_longer ds1 d ds2 :
  Forall (λ d, 0 ≤ d ≤ 9) ds1 → Forall (λ d, 0 ≤ d ≤ 9) (d :: ds2) →
  (length ds1 < length (d :: ds2))%nat → d ≠ 0 →
  decimal_value ds1 < decimal_value (d :: ds2).
Proof.
  intros H1 H2 Hlen Hd. apply Forall_cons in H2 as [Hdb H2].
  pose proof (foldl_digits_bounds ds1 0 H1 ltac:(lia)) as B1.
  pose proof (foldl_digits_bounds ds2 (10 * 0 + d) H2 ltac:(lia)) as B2.
  unfold decimal_value. cbn [foldl]. simpl in Hlen.
  assert (10 ^ Z.of_nat (length ds1) ≤ 10 ^ Z.of_nat (length ds2))
    by (apply Z.pow_le_mono_r; lia).
  assert (0 < 10 ^ Z.of_nat (length ds2)) by (apply Z.pow_pos_nonneg; lia).
  nia.
Qed.

(** *** [\d+] *)

Lemma digits_plus_Some fuel k s m :
  Re.digits_plus fuel k s = Some m →
  ∃ n r ds, s = n +:+ r ∧ decimal_digits n = Some ds ∧ ds ≠ []
            ∧ k r = Some m.
Proof.
  revert s. induction fuel as [|fuel IH]; intros s; [done |].
  cbn [Re.digits_plus]. destruct (digit s) as [[d s']|] eqn:E; [|done].
  destruct (digit_split _ _ _ E) as (ch & -> & Hne & Hch).
  destruct (Re.digits_plus fuel k s') as [m'|] eqn:Hrec.
  - intros [= ->]. destruct (IH _ Hrec) as (n & r & ds & -> & Hn & _ & Hk).
    exists (ch +:+ n), r, (d :: ds). rewrite app_assoc'.
    repeat split; [|done | done].
    rewrite (decimal_digits_step _ _ _ (Hch n)). by rewrite Hn.
  - intros Hk. exists ch, s', [d]. repeat split; [|done | done].
    specialize (Hch EmptyString). rewrite app_empty_r in Hch.
    by rewrite (decimal_digits_step _ _ _ Hch).
Qed.

Lemma digits_plus_maximal fuel k n r ds m :
  decimal_digits n = Some ds → ds ≠ [] → digit r = None →
  k r = Some m → (length ds ≤ fuel)%nat →
  Re.digits_plus fuel k (n +:+ r) = Some m.
Proof.
  revert fuel n. induction ds as [|d ds IH]; intros fuel n Hn Hne Hr Hk Hf;
    [done |].
  apply decimal_digits_cons in Hn as (n' & E & Hn).
  destruct fuel as [|fuel]; [simpl in Hf; lia |].
  cbn [Re.digits_plus]. rewrite (digit_app _ _ _ r E).
  destruct ds as [|d' ds].
  - apply decimal_digits_nil in Hn as ->. simpl.
    destruct fuel; simpl; [done |]. by rewrite Hr.
  - rewrite (IH fuel n'); [done | done | done | done | done |].
    simpl in *. lia.
Qed.

Lemma digits_plus_is_Some fuel k s :
  is_Some (digit s) → (∀ r, is_Some (k r)) →
  is_Some (Re.digits_plus (S fuel) k s).
Proof.
  intros [[d s'] E] Hk. cbn [Re.digits_plus]. rewrite E.
  destruct (Re.digits_plus fuel k s'); [eauto | apply Hk].
Qed.

End digit_facts.

(** ** Regular expressions *)

Section regex_facts.

Import Re.
Implicit Types (c : cls) (s r run : string) (m : match_obj).

Lemma first_some_app {A B} (k : A → option B) l1 l2 :
  first_some k (l1 ++ l2) =
  match first_some k l1 with Some y => Some y | None => first_some k l2 end.
Proof.
  induction l1 as [|x l1 IH]; simpl; [by destruct (first_some k l2) |].
  destruct (k x); [done | apply IH].
Qed.

Lemma first_some_Some {A B} (k : A → option B) l y :
  first_some k l = Some y → ∃ x, x ∈ l ∧ k x = Some y.
Proof.
  induction l as [|x l IH]; simpl; [done |].
  destruct (k x) eqn:E.
  - intros [= ->]. exists x. split; [left | done].
  - intros (x' & ? & ?)%IH. exists x'. split; [by right | done].
Qed.

Lemma plus_rests c k s : plus c k s = first_some k (rests c s).
Proof.
  induction s as [|a s IH]; simpl; [done |].
  destruct (cls_match c a); [|done].
  rewrite first_some_app, IH. simpl.
  destruct (first_some k (rests c s)); [done |]. by destruct (k s).
Qed.

Lemma rests_elem c s r :
  r ∈ rests c s →
  ∃ run, s = run +:+ r ∧ run ≠ EmptyString ∧ Str.all (cls_match c) run = true.
Proof.
  induction s as [|a s IH]; simpl; [by intros ?%elem_of_nil |].
  destruct (cls_match c a) eqn:Ha; [|by intros ?%elem_of_nil].
  rewrite elem_of_app, list_elem_of_singleton. intros [Hin | ->].
  - destruct (IH Hin) as (run & -> & _ & Hall).
    exists (String a run). simpl. by rewrite Ha, Hall.
  - exists (String a EmptyString). simpl. by rewrite Ha.
Qed.

Lemma rests_head c s r others :
  rests c s = r :: others →
  ∃ run, s = run +:+ r ∧ run ≠ EmptyString
         ∧ Str.all (cls_match c) run = true ∧ stops c r.
Proof.
  revert r others. induction s as [|a s IH]; intros r others; simpl; [done |].
  destruct (cls_match c a) eqn:Ha; [|done].
  destruct (rests c s) as [|r' others'] eqn:Hr; simpl.
  - intros [= <- <-]. exists (String a EmptyString). simpl. rewrite Ha.
    repeat split; [done |].
    destruct s as [|b s]; simpl in *; [done |].
    destruct (cls_match c b); [by destruct (rests c s) | done].
  - intros [= <- <-]. destruct (IH _ _ eq_refl) as (run & -> & _ & Hall & ?).
    exists (String a run). simpl. by rewrite Ha, Hall.
Qed.

Lemma rests_maximal c run r :
  run ≠ EmptyString → Str.all (cls_match c) run = true → stops c r →
  ∃ others, rests c (run +:+ r) = r :: others.
Proof.
  intros Hne Hall Hstop. induction run as [|a run IH]; [done |].
  simpl in *. apply andb_true_iff in Hall as [Ha Hall]. rewrite Ha.
  destruct run as [|b run].
  - simpl. exists []. destruct r as [|d r]; simpl in *; [done |].
    by rewrite Hstop.
  - destruct IH as [others Ho]; [done | done |]. rewrite Ho. eauto.
Qed.

Lemma plus_Some c k s m :
  plus c k s = Some m →
  ∃ run r, s = run +:+ r ∧ run ≠ EmptyString
           ∧ Str.all (cls_match c) run = true ∧ k r = Some m.
Proof.
  rewrite plus_rests. intros (r & Hin & Hk)%first_some_Some.
  destruct (rests_elem _ _ _ Hin) as (run & ? & ? & ?). by exists run, r.
Qed.

Lemma plus_maximal c k run r m :
  run ≠ EmptyString → Str.all (cls_match c) run = true → stops c r →
  k r = Some m → plus c k (run +:+ r) = Some m.
Proof.
  intros Hne Hall Hstop Hk. rewrite plus_rests.
  destruct (rests_maximal c run r) as [others ->]; [done..|].
  simpl. by rewrite Hk.
Qed.

(** *** The URI pattern *)

Lemma re_match_uri_unfold uri :
  re_match uri_re uri =
  match Str.chop "gs://" uri with
  | Some s1 =>
      plus (NotChr "/")
        (λ s2, match Str.chop "/" s2 with
               | Some s3 =>
                   plus Dot
                     (λ s4, Some (([] ++ [Str.consumed s1 s2])
                                  ++ [Str.consumed s3 s4])) s3
               | None => None
               end) s1
  | None => None
  end.
Proof. reflexivity. Qed.

Lemma stops_dot tail :
  stops Dot tail ↔ tail = EmptyString ∨ ∃ t, tail = String line_feed t.
Proof.
  destruct tail as [|a t]; simpl.
  - split; [by left | done].
  - rewrite bool_decide_eq_false. split.
    + intros H. right. exists t. f_equal. by destruct (decide (a = line_feed)).
    + intros [? | [t' [= -> _]]]; [done | by intros ?].
Qed.

Lemma uri_match_of_gs_uri uri b p :
  gs_uri uri b p → re_match uri_re uri = Some [b; p].
Proof.
  intros (tail & -> & Hb & Hball & Hp & Hpall & Htail).
  rewrite re_match_uri_unfold, chop_app.
  apply plus_maximal; [done | done | done |].
  cbv beta. rewrite (chop_app "/"), consumed_app.
  apply plus_maximal; [done | done | by apply stops_dot |].
  by rewrite consumed_app.
Qed.

Lemma gs_uri_of_uri_match uri m :
  re_match uri_re uri = Some m → ∃ b p, m = [b; p] ∧ gs_uri uri b p.
Proof.
  rewrite re_match_uri_unfold.
  destruct (Str.chop "gs://" uri) as [s1|] eqn:H1; [|done].
  apply chop_Some in H1 as ->.
  intros (b & s2 & -> & Hb & Hball & Hk)%plus_Some.
  destruct (Str.chop "/" s2) as [s3|] eqn:H3; [|done].
  apply chop_Some in H3 as ->.
  rewrite consumed_app, plus_rests in Hk.
  destruct (rests Dot s3) as [|tail others] eqn:Hr; [done |].
  simpl in Hk. injection Hk as <-.
  destruct (rests_head _ _ _ _ Hr) as (p & -> & Hp & Hpall & Hstop).
  rewrite consumed_app. exists b, p. split; [done |].
  exists tail. repeat split; try done. by apply stops_dot.
Qed.

Lemma uri_no_match uri :
  (∀ b p, ¬ gs_uri uri b p) → re_match uri_re uri = None.
Proof.
  intros Hno. destruct (re_match uri_re uri) as [m|] eqn:Hm; [|done].
  destruct (gs_uri_of_uri_match _ _ Hm) as (b & p & _ & Hgs).
  by destruct (Hno b p).
Qed.

(** *** The page-range pattern *)

Lemma re_match_page_unfold s :
  re_match page_re s =
  match Str.chop "output-" s with
  | Some s1 =>
      digits_plus (String.length s1)
        (λ s2, match Str.chop "-to-" s2 with
               | Some s3 =>
                   digits_plus (String.length s3)
                     (λ _, Some ([] ++ [Str.consumed s1 s2])) s3
               | None => None
               end) s1
  | None => None
  end.
Proof. reflexivity. Qed.

Lemma page_match_sound s m :
  re_match page_re s = Some m →
  ∃ n ds, m = [n] ∧ page_range_at EmptyString s n ds.
Proof.
  rewrite re_match_page_unfold.
  destruct (Str.chop "output-" s) as [s1|] eqn:H1; [|done].
  apply chop_Some in H1 as ->.
  intros (n & s2 & ds & -> & Hn & Hds & Hk)%digits_plus_Some.
  destruct (Str.chop "-to-" s2) as [s3|] eqn:H3; [|done].
  apply chop_Some in H3 as ->.
  apply digits_plus_Some in Hk as (n2 & r & ds2 & -> & Hn2 & Hds2 & [= <-]).
  rewrite consumed_app. exists n, ds. split; [done |].
  exists (n2 +:+ r). repeat split; [done | done |].
  destruct ds2 as [|d2 ds2]; [done |].
  apply decimal_digits_cons in Hn2 as (n2' & E & _).
  rewrite (digit_app _ _ _ r E). eauto.
Qed.

Lemma page_match_complete s n ds :
  page_range_at EmptyString s n ds → is_Some (re_match page_re s).
Proof.
  intros (rest & -> & Hn & Hds & Hd).
  rewrite re_match_page_unfold.
  change (EmptyString +:+ ?x) with x. rewrite chop_app.
  assert (is_Some (digits_plus (String.length rest)
                     (λ _, Some ([] ++ [n])) rest)) as [m Hm].
  { destruct rest as [|a rest]; [by destruct Hd |].
    cbn [String.length]. apply digits_plus_is_Some; [done | eauto]. }
  exists m. apply digits_plus_maximal with ds; [done | done | done | |].
  - rewrite (chop_app "-to-"), consumed_app. exact Hm.
  - apply decimal_digits_length in Hn. rewrite app_length'. lia.
Qed.

Lemma page_search_sound s m :
  re_search page_re s = Some m →
  ∃ pre n ds, m = [n] ∧ page_range_at pre s n ds.
Proof.
  induction s as [|a s IH].
  - intros H. by vm_compute in H.
  - cbn [re_search]. destruct (re_match page_re (String a s)) eqn:E.
    + intros [= ->].
      destruct (page_match_sound _ _ E) as (n & ds & ? & ?).
      by exists EmptyString, n, ds.
    + intros (pre & n & ds & -> & rest & -> & ?)%IH.
      exists (String a pre), n, ds. split; [done |]. by exists rest.
Qed.

Lemma page_search_first s m :
  re_search page_re s = Some m →
  ∃ n ds, m = [n] ∧ first_page_range s n ds.
Proof.
  induction s as [|a s IH].
  - intros H. by vm_compute in H.
  - cbn [re_search]. destruct (re_match page_re (String a s)) eqn:E.
    + intros [= ->]. destruct (page_match_sound _ _ E) as (n & ds & ? & ?).
      exists n, ds. split; [done |]. exists EmptyString. split; [done |].
      intros; simpl; lia.
    + intros (n & ds & -> & pre & (rest & -> & ?) & Hfirst)%IH.
      exists n, ds. split; [done |]. exists (String a pre).
      split; [by exists rest |].
      intros pre' n' ds' Hr. destruct pre' as [|a' pre'].
      * apply page_match_complete in Hr as [? Hr]. congruence.
      * simpl. apply le_n_S, (Hfirst pre' n' ds').
        destruct Hr as (rest' & Heq & ?). exists rest'.
        split; [|done]. by injection Heq.
Qed.

Lemma page_search_complete pre s n ds :
  page_range_at pre s n ds → is_Some (re_search page_re s).
Proof.
  intros (rest & -> & Hn).
  induction pre as [|a pre IH].
  - assert (is_Some (re_match page_re
      (EmptyString +:+ "output-" +:+ n +:+ "-to-" +:+ rest)))
      as [m Hm] by (apply page_match_complete with n ds; by exists rest).
    destruct (_ +:+ _) eqn:E; cbn [re_search]; by rewrite Hm.
  - change (String a pre +:+ ?x) with (String a (pre +:+ x)).
    cbn [re_search]. destruct (re_match page_re _); [done | apply IH].
Qed.

End regex_facts.

(** ** The order key *)

Lemma extract_page_number_no_match blob :
  Re.re_search page_re (name blob) = None → extract_page_number blob = -1.
Proof. unfold extract_page_number. by intros ->. Qed.

Lemma extract_page_number_match blob m :
  Re.re_search page_re (name blob) = Some m →
  ∃ n ds, first_page_range (name blob) n ds
          ∧ extract_page_number blob = decimal_value ds
          ∧ 0 ≤ extract_page_number blob.
Proof.
  intros Hm. unfold extract_page_number. rewrite Hm.
  destruct (page_search_first _ _ Hm) as (n & ds & -> & Hrange).
  assert (decimal_digits n = Some ds) as Hn
    by (by destruct Hrange as (pre & (rest & _ & ? & _) & _)).
  exists n, ds. change (Re.group [n] 1) with n.
  rewrite (int_value _ _ Hn).
  repeat split; [done |].
  by eapply decimal_value_nonneg, decimal_digits_bounds.
Qed.

Lemma has_page_range_search blob :
  has_page_range blob ↔ is_Some (Re.re_search page_re (name blob)).
Proof.
  split.
  - intros (pre & n & ds & H). by eapply page_search_complete.
  - intros [m Hm].
    destruct (page_search_sound _ _ Hm) as (pre & n & ds & _ & H).
    by exists pre, n, ds.
Qed.

Lemma extract_page_number_unparseable blob :
  ¬ has_page_range blob → extract_page_number blob = -1.
Proof.
  intros Hno. apply extract_page_number_no_match.
  destruct (Re.re_search page_re (name blob)) eqn:E; [|done].
  destruct Hno. apply has_page_range_search. eauto.
Qed.

Lemma extract_page_number_parseable blob :
  has_page_range blob →
  0 ≤ extract_page_number blob
  ∧ ∃ n ds, first_page_range (name blob) n ds
            ∧ extract_page_number blob = decimal_value ds.
Proof.
  intros [m Hm]%has_page_range_search.
  destruct (extract_page_number_match _ _ Hm) as (n & ds & ? & ? & ?).
  split; [done |]. by exists n, ds.
Qed.

(** ** Sorting *)

Section sorting.

Context {A : Type} (key : A → Z).


Lemma insert_by_perm x l : insert_by key x l ≡ₚ x :: l.
Proof.
  induction l as [|y l IH]; simpl; [done |].
  destruct (key x <=? key y); [done |].
  rewrite IH. apply Permutation_swap.
Qed.

Lemma sorted_perm l : sorted key l ≡ₚ l.
Proof.
  induction l as [|x l IH]; simpl; [done |].
  unfold sorted in *. simpl. by rewrite insert_by_perm, IH.
Qed.

Lemma insert_by_sorted x l :
  StronglySorted (by_key key) l → StronglySorted (by_key key) (insert_by key x l).
Proof.
  induction 1 as [|y l Hl IH Hy]; simpl.
  - repeat constructor.
  - destruct (Z.leb_spec (key x) (key y)) as [Hxy | Hxy].
    + constructor; [by constructor |]. constructor; [done |].
      eapply Forall_impl; [exact Hy |]. unfold by_key. intros; lia.
    + constructor; [done |]. rewrite insert_by_perm.
      constructor; [unfold by_key; lia | done].
Qed.

Lemma sorted_sorted l : StronglySorted (by_key key) (sorted key l).
Proof.
  induction l as [|x l IH]; [constructor |].
  by apply insert_by_sorted.
Qed.

Lemma insert_by_keyed k x l :
  keyed key k (insert_by key x l) = keyed key k (x :: l).
Proof.
  induction l as [|y l IH]; [done |]. simpl insert_by.
  destruct (Z.leb_spec (key x) (key y)) as [Hxy | Hxy]; [done |].
  unfold keyed in *. simpl in *. rewrite IH.
  destruct (Z.eqb_spec (key x) k), (Z.eqb_spec (key y) k); try done. lia.
Qed.

(** The sort is stable: items of one key keep their order. *)
Lemma sorted_stable k l : keyed key k (sorted key l) = keyed key k l.
Proof.
  induction l as [|x l IH]; [done |].
  change (sorted key (x :: l)) with (insert_by key x (sorted key l)).
  rewrite insert_by_keyed. unfold keyed in *. simpl. by rewrite IH.
Qed.

Lemma sorted_lookup_le l i j x y :
  StronglySorted (by_key key) l → (i < j)%nat →
  l !! i = Some x → l !! j = Some y → key x ≤ key y.
Proof.
  intros Hl. revert i j. induction Hl as [|z l Hl IH Hz]; intros i j Hij.
  - by rewrite lookup_nil.
  - destruct i as [|i], j as [|j]; simpl; try lia.
    + intros [= ->] Hy. rewrite Forall_forall in Hz.
      apply Hz. by eapply list_elem_of_lookup_2.
    + apply IH. lia.
Qed.

(** A list is the result of the sort as soon as it is in ascending order of
    the keys and keeps the items of each key in their order: the result does
    not depend on the sorting algorithm. *)
Lemma stable_order_unique l1 l2 :
  StronglySorted (by_key key) l1 → StronglySorted (by_key key) l2 →
  (∀ k, keyed key k l1 = keyed key k l2) → l1 = l2.
Proof.
  intros H1. revert l2.
  induction H1 as [|x l1 H1 IH Hx]; intros l2 H2 Heq.
  - destruct l2 as [|y l2]; [done |].
    specialize (Heq (key y)). unfold keyed in Heq. simpl in Heq.
    by rewrite Z.eqb_refl in Heq.
  - destruct H2 as [|y l2 H2 Hy].
    + specialize (Heq (key x)). unfold keyed in Heq. simpl in Heq.
      by rewrite Z.eqb_refl in Heq.
    + assert (key x = key y) as Hk.
      { apply Z.le_antisymm.
        - pose proof (Heq (key y)) as E. unfold keyed in E. simpl in E.
          rewrite Z.eqb_refl in E.
          destruct (Z.eqb_spec (key x) (key y)); [lia |].
          assert (y ∈ List.filter (λ z, key z =? key y) l1) as Hin
            by (rewrite E; left).
          apply list_elem_of_In, filter_In in Hin as [Hin _].
          rewrite Forall_forall in Hx. apply Hx. by apply list_elem_of_In.
        - pose proof (Heq (key x)) as E. unfold keyed in E. simpl in E.
          rewrite Z.eqb_refl in E.
          destruct (Z.eqb_spec (key y) (key x)); [lia |].
          assert (x ∈ List.filter (λ z, key z =? key x) l2) as Hin
            by (rewrite <- E; left).
          apply list_elem_of_In, filter_In in Hin as [Hin _].
          rewrite Forall_forall in Hy. apply Hy. by apply list_elem_of_In. }
      pose proof (Heq (key x)) as E. unfold keyed in E. simpl in E.
      rewrite <- Hk, Z.eqb_refl in E. injection E as -> E.
      f_equal. apply IH; [done |]. intros k.
      specialize (Heq k). unfold keyed in *. simpl in Heq.
      destruct (key y =? k); [by injection Heq | done].
Qed.

Lemma sorted_unique l l' :
  StronglySorted (by_key key) l' → (∀ k, keyed key k l' = keyed key k l) →
  l' = sorted key l.
Proof.
  intros Hs Hk. apply stable_order_unique; [done | apply sorted_sorted |].
  intros k. by rewrite sorted_stable.
Qed.

End sorting.

(** ** Reading the output of a job *)

Section reading.

Context (bucket_name : string) (objs : list Blob).
Hypothesis names_unique : NoDup (name <$> objs).

Lemma find_named blob :
  blob ∈ objs → List.find (named (name blob)) objs = Some blob.
Proof using names_unique.
  clear bucket_name. induction objs as [|o l IH]; [by intros ?%elem_of_nil |].
  rewrite fmap_cons in names_unique. apply NoDup_cons in names_unique as [Ho Hl].
  intros [-> | Hin]%elem_of_cons; simpl; unfold named at 1.
  - by rewrite bool_decide_eq_true_2.
  - rewrite bool_decide_eq_false_2; [by apply IH |].
    intros E. apply Ho. rewrite E. by apply list_elem_of_fmap_2.
Qed.

Lemma download_listed blob w :
  buckets w !! bucket_name = Some objs → blob ∈ objs →
  download_as_bytes bucket_name blob w
  = (Ok (data blob), log (EvDownload bucket_name (name blob)) w).
Proof using names_unique.
  intros Hb Hin. unfold download_as_bytes, bind, emit. simpl.
  by rewrite Hb, find_named.
Qed.

Lemma for_fold_texts depth_limit blobs acc w :
  buckets w !! bucket_name = Some objs → blobs ⊆ objs →
  (for_fold blobs (add_blob_text depth_limit bucket_name) acc w).1 = texts_of
      depth_limit blobs acc.
Proof using names_unique.
  revert acc w. induction blobs as [|b blobs IH]; intros acc w Hb Hsub; [done |].
  assert (b ∈ objs) as Hin by (apply Hsub; left).
  assert (blobs ⊆ objs) as Hsub' by (intros x Hx; apply Hsub; by right).
  unfold texts_of. simpl. unfold bind, add_blob_text. fold (is_file b).
  destruct (is_file b) eqn:Hfile; simpl.
  - unfold bind. rewrite download_listed by done. unfold lift.
    destruct (add_document_text depth_limit acc (data b)) as [acc'|e]; simpl;
        [|done].
    by apply IH.
  - unfold ret. by apply IH.
Qed.

Lemma get_ocr_output_result depth_limit uri bucket prefix w :
  gs_uri uri bucket prefix → buckets w !! bucket_name = Some objs →
  (get_ocr_output_from_bucket depth_limit uri bucket_name w).1
  = texts_of depth_limit (sorted extract_page_number (listing prefix objs))
      EmptyString.
Proof using names_unique.
  intros Huri Hb. unfold get_ocr_output_from_bucket.
  rewrite (uri_match_of_gs_uri _ _ _ Huri).
  unfold bind at 1. unfold ret at 1. change (Re.group [bucket; prefix] 2) with prefix.
  unfold bind at 1. unfold get_bucket at 1, bind at 1, emit. simpl buckets.
  rewrite Hb. unfold bind at 1. unfold list_blobs at 1, bind at 1, emit.
  simpl buckets. rewrite Hb. apply for_fold_texts; [done |].
  intros b Hin. rewrite sorted_perm in Hin.
  apply list_elem_of_In, filter_In in Hin as [Hin _]. by apply list_elem_of_In.
Qed.

End reading.

(** ** The text of well-formed documents *)

Lemma mem_get k d : Dict.mem k d = bool_decide (is_Some (Dict.get k d)).
Proof.
  induction d as [|[k' v] d IH]; simpl; [done |]. by case_decide.
Qed.

Lemma mem_absent k d : Dict.get k d = None → Dict.mem k d = false.
Proof.
  intros H. rewrite mem_get, H. apply bool_decide_eq_false. by intros [? ?].
Qed.

Lemma mem_present k d v : Dict.get k d = Some v → Dict.mem k d = true.
Proof. intros H. rewrite mem_get, H. apply bool_decide_eq_true. eauto. Qed.

Lemma add_page_text_absent acc d :
  Dict.get "fullTextAnnotation" d = None →
  add_page_text acc (JObject d) = Ok acc.
Proof. intros H. unfold add_page_text. simpl. by rewrite (mem_absent _ _ H). Qed.

Lemma add_page_text_no_text acc d f :
  Dict.get "fullTextAnnotation" d = Some (JObject f) →
  Dict.get "text" f = None →
  add_page_text acc (JObject d) = Ok acc.
Proof.
  intros H Hf. unfold add_page_text. simpl.
  rewrite (mem_present _ _ _ H), H. simpl. rewrite Hf. simpl.
  by rewrite app_empty_r.
Qed.

Lemma add_page_text_present acc d f t :
  Dict.get "fullTextAnnotation" d = Some (JObject f) →
  Dict.get "text" f = Some (JString t) →
  add_page_text acc (JObject d) = Ok (acc +:+ t).
Proof.
  intros H Hf. unfold add_page_text. simpl.
  rewrite (mem_present _ _ _ H), H. simpl. by rewrite Hf.
Qed.

Lemma add_page_text_ok acc page :
  page_ok page = true → add_page_text acc page = Ok (acc +:+ page_text page).
Proof.
  destruct page as [| | | |?|d]; try done. simpl.
  destruct (Dict.get "fullTextAnnotation" d) as [a|] eqn:Ha.
  - destruct a as [| | | |?|f]; try done.
    destruct (Dict.get "text" f) as [t|] eqn:Ht.
    + destruct t as [| | |t| |]; try done. intros _.
      by apply add_page_text_present with f.
    + intros _. rewrite app_empty_r. by apply add_page_text_no_text with f.
  - intros _. rewrite app_empty_r. by apply add_page_text_absent.
Qed.

Lemma rfold_pages_ok pages acc :
  forallb page_ok pages = true →
  rfold pages add_page_text acc = Ok (acc +:+ join (page_text <$> pages)).
Proof.
  revert acc. induction pages as [|page pages IH]; intros acc; simpl.
  - by rewrite app_empty_r.
  - intros [Hp Hps]%andb_true_iff. rewrite (add_page_text_ok _ _ Hp). simpl.
    rewrite IH by done. by rewrite app_assoc'.
Qed.

Lemma add_document_text_no_responses depth_limit acc bytes d :
  Utf8.valid bytes = true → Json.loads depth_limit bytes = Ok (JObject d) →
  Dict.get "responses" d = None →
  add_document_text depth_limit acc bytes = Ok acc.
Proof.
  intros Hv Hl Hr. unfold add_document_text, Utf8.decode. rewrite Hv. simpl.
  rewrite Hl. simpl. by rewrite Hr.
Qed.

Lemma add_document_text_ok depth_limit acc blob :
  blob_ok depth_limit blob = true →
  add_document_text depth_limit acc (data blob) = Ok (acc +:+ blob_text
      depth_limit blob).
Proof.
  unfold blob_ok, blob_text, add_document_text, Utf8.decode.
  intros [Hv Hd]%andb_true_iff. rewrite Hv. simpl.
  destruct (Json.loads depth_limit (data blob)) as [v|]; [|done]. simpl.
  destruct v as [| | | |?|d]; try done. simpl in *.
  destruct (Dict.get "responses" d) as [r|]; simpl.
  - destruct r as [| | | |pages|]; try done. simpl. by apply rfold_pages_ok.
  - by rewrite app_empty_r.
Qed.

Lemma texts_of_ok depth_limit blobs acc :
  forallb (blob_ok depth_limit) (List.filter is_file blobs) = true →
  texts_of depth_limit blobs acc
  = Ok (acc +:+ join (blob_text depth_limit <$> List.filter is_file blobs)).
Proof.
  unfold texts_of. generalize (List.filter is_file blobs) as files.
  intros files. revert acc.
  induction files as [|b files IH]; intros acc; simpl.
  - by rewrite app_empty_r.
  - intros [Hb Hbs]%andb_true_iff. rewrite (add_document_text_ok _ _ _ Hb).
    simpl. rewrite IH by done. by rewrite app_assoc'.
Qed.

(** ** The order of concatenation *)

Lemma gs_uri_plain bucket path :
  bucket ≠ EmptyString →
  Str.all (λ a, bool_decide (a ≠ "/"%char)) bucket = true →
  path ≠ EmptyString →
  Str.all (λ a, bool_decide (a ≠ Re.line_feed)) path = true →
  gs_uri ("gs://" +:+ bucket +:+ "/" +:+ path) bucket path.
Proof.
  intros. exists EmptyString. rewrite app_empty_r. repeat split; auto.
Qed.

Lemma unparseable_first (ordered : list Blob) i j b b' :
  StronglySorted (by_key extract_page_number) ordered →
  ordered !! i = Some b → ordered !! j = Some b' →
  ¬ has_page_range b → has_page_range b' → (i < j)%nat.
Proof.
  intros Hs Hi Hj Hb Hb'.
  apply extract_page_number_unparseable in Hb as Hk.
  apply extract_page_number_parseable in Hb' as [Hk' _].
  destruct (lt_eq_lt_dec i j) as [[? | ->] | Hlt]; [done | |].
  - rewrite Hi in Hj. injection Hj as ->. lia.
  - pose proof (sorted_lookup_le _ _ _ _ _ _ Hs Hlt Hj Hi). lia.
Qed.

(** C1.  The blobs are concatenated in ascending order of the start page
    parsed from the [output-<N>-to-<M>] part of their names, and a blob
    whose name has no such part has the key -1 and comes before every blob
    that has one: [manifest.json] comes before [output-1-to-2.json] whatever
    the order of the listing.  The key of a name with such a part is the
    number its leftmost start page writes in base ten, in the digits of any
    script; on well-formed output the result is the texts of the files
    joined in this order.  The object names are names of the storage
    service, at most 1024 bytes long, for which [int] raises nothing. *)
Theorem concatenation_in_start_page_order
    depth_limit uri bucket prefix bucket_name objs w :
  gs_uri uri bucket prefix →
  buckets w !! bucket_name = Some objs →
  NoDup (name <$> objs) →
  storable objs →
  let blobs := listing prefix objs in
  let ordered := sorted extract_page_number blobs in
  let files := List.filter is_file ordered in
  (get_ocr_output_from_bucket depth_limit uri bucket_name w).1
  = texts_of depth_limit ordered EmptyString
  ∧ (forallb (blob_ok depth_limit) files = true →
     (get_ocr_output_from_bucket depth_limit uri bucket_name w).1
     = Ok (join (blob_text depth_limit <$> files)))
  ∧ ordered ≡ₚ blobs
  ∧ (∀ i j b b', (i < j)%nat →
       ordered !! i = Some b → ordered !! j = Some b' →
       extract_page_number b ≤ extract_page_number b')
  ∧ (∀ b, b ∈ blobs → has_page_range b →
       ∃ n ds, first_page_range (name b) n ds
               ∧ (length ds ≤ int_max_str_digits)%nat
               ∧ extract_page_number b = decimal_value ds
               ∧ 0 ≤ extract_page_number b)
  ∧ (∀ b, b ∈ blobs → ¬ has_page_range b → extract_page_number b = -1)
  ∧ (∀ i j b b',
       ordered !! i = Some b → ordered !! j = Some b' →
       ¬ has_page_range b → has_page_range b' → (i < j)%nat)
  ∧ (∀ d1 d2,
       let manifest := {| name := "ocr/x/manifest.json"; data := d1 |} in
       let output := {| name := "ocr/x/output-1-to-2.json"; data := d2 |} in
       sorted extract_page_number [manifest; output] = [manifest; output]
       ∧ sorted extract_page_number [output; manifest] = [manifest; output]).
Proof.
  intros Huri Hb Hnd Hst blobs ordered files.
  split; [by eapply get_ocr_output_result |].
  split.
  { intros Hok. rewrite (get_ocr_output_result _ _ Hnd _ _ _ _ _ Huri Hb).
    by rewrite texts_of_ok. }
  split; [apply sorted_perm |].
  split; [intros i j b b'; apply sorted_lookup_le, sorted_sorted |].
  split.
  { intros b Hin Hr.
    destruct (extract_page_number_parseable _ Hr) as (Hk & n & ds & Hf & Hv).
    exists n, ds. repeat split; try done.
    apply list_elem_of_In, filter_In in Hin as [Hin _].
    apply list_elem_of_In in Hin.
    pose proof (proj1 (Forall_forall _ _) Hst b Hin) as Hlen. cbv beta in Hlen.
    destruct Hf as (pre & (rest & Hname & Hn & _) & _).
    apply decimal_digits_length in Hn. rewrite Hname in Hlen.
    rewrite !app_length' in Hlen.
    assert (max_name_length ≤ int_max_str_digits)%nat
      by (apply Nat.leb_le; vm_compute; reflexivity).
    lia. }
  split; [intros b _; apply extract_page_number_unparseable |].
  split; [intros i j b b'; apply unparseable_first, sorted_sorted |].
  intros d1 d2. split; reflexivity.
Qed.

Lemma concatenation_in_start_page_order_witness :
  (get_ocr_output_from_bucket Sample.depth_limit "gs://out/ocr/x/" "out"
     (Sample.store [Sample.world; Sample.manifest; Sample.hello])).1
  = Ok "Hello World".
Proof.
  refine (proj1 (proj2 (concatenation_in_start_page_order
    Sample.depth_limit "gs://out/ocr/x/" "out" "ocr/x/" "out"
    [Sample.world; Sample.manifest; Sample.hello]
    (Sample.store [Sample.world; Sample.manifest; Sample.hello]) _ _ _ _)) _).
  - by apply (gs_uri_plain "out" "ocr/x/").
  - reflexivity.
  - apply (bool_decide_unpack _). vm_compute. exact I.
  - apply (bool_decide_unpack _). vm_compute. exact I.
  - vm_compute. reflexivity.
Defined.

(** C9.  Blobs of equal order key, the key -1 of the names without a page
    range included, are processed in the order of the listing: the sort is
    stable. *)
Theorem equal_keys_keep_listing_order depth_limit
    uri bucket prefix bucket_name objs w :
  gs_uri uri bucket prefix →
  buckets w !! bucket_name = Some objs →
  NoDup (name <$> objs) →
  let blobs := listing prefix objs in
  let ordered := sorted extract_page_number blobs in
  (get_ocr_output_from_bucket depth_limit uri bucket_name w).1
  = texts_of depth_limit ordered EmptyString
  ∧ (∀ k, keyed extract_page_number k ordered
          = keyed extract_page_number k blobs)
  ∧ (∀ l, StronglySorted (by_key extract_page_number) l →
          (∀ k, keyed extract_page_number k l
                = keyed extract_page_number k blobs) →
          l = ordered).
Proof.
  intros Huri Hb Hnd blobs ordered.
  split; [by eapply get_ocr_output_result |].
  split; [intros k; apply sorted_stable |].
  intros l Hs Hk. by apply sorted_unique.
Qed.

Lemma equal_keys_keep_listing_order_witness :
  keyed extract_page_number (-1)
    (sorted extract_page_number
       (listing "ocr/x/"
          [Sample.world; Sample.manifest; Sample.hello; Sample.folder]))
  = [Sample.manifest; Sample.folder].
Proof.
  refine (eq_trans (proj1 (proj2 (equal_keys_keep_listing_order
    Sample.depth_limit "gs://out/ocr/x/" "out" "ocr/x/" "out"
    [Sample.world; Sample.manifest; Sample.hello; Sample.folder]
    (Sample.store [Sample.world; Sample.manifest; Sample.hello; Sample.folder])
    _ _ _)) (-1)) _).
  - by apply (gs_uri_plain "out" "ocr/x/").
  - reflexivity.
  - apply (bool_decide_unpack _). vm_compute. exact I.
  - reflexivity.
Defined.

(** ** Examples of collection *)

(** C2.  When the listing under the prefix holds exactly the two blobs
    [ocr/x/output-1-to-2.json], with the text [Hello ], and
    [ocr/x/output-3-to-4.json], with the text [World], the function returns
    [Hello World].  The documents nest four arrays and objects, which the
    stack of the interpreter has to allow. *)
Theorem hello_world_example depth_limit uri bucket prefix bucket_name objs w :
  gs_uri uri bucket prefix →
  buckets w !! bucket_name = Some objs →
  NoDup (name <$> objs) →
  listing prefix objs ≡ₚ [Sample.hello; Sample.world] →
  (4 ≤ depth_limit)%nat →
  (get_ocr_output_from_bucket depth_limit uri bucket_name w).1
  = Ok "Hello World".
Proof.
  intros Huri Hb Hnd Hl Hdepth.
  rewrite (get_ocr_output_result _ _ Hnd _ _ _ _ _ Huri Hb).
  destruct depth_limit as [|[|[|[|depth]]]]; [lia | lia | lia | lia |].
  symmetry in Hl. apply Permutation_length_2_inv in Hl as [-> | ->];
    by vm_compute.
Qed.

Lemma hello_world_example_witness :
  (get_ocr_output_from_bucket Sample.depth_limit "gs://out/ocr/x/" "out"
     (Sample.store [Sample.other; Sample.world; Sample.hello])).1
  = Ok "Hello World".
Proof.
  apply (hello_world_example Sample.depth_limit "gs://out/ocr/x/" "out"
      "ocr/x/" "out"
           [Sample.other; Sample.world; Sample.hello]).
  - by apply (gs_uri_plain "out" "ocr/x/").
  - reflexivity.
  - apply (bool_decide_unpack _). vm_compute. exact I.
  - vm_compute. apply Permutation_swap.
  - vm_compute. lia.
Defined.

(** C3.  When the listing under the prefix is empty, the function returns the
    empty string and raises nothing. *)
Theorem empty_listing_gives_empty_text depth_limit uri bucket prefix
    bucket_name objs w :
  gs_uri uri bucket prefix →
  buckets w !! bucket_name = Some objs →
  listing prefix objs = [] →
  get_ocr_output_from_bucket depth_limit uri bucket_name w
  = (Ok EmptyString,
     log (EvListBlobs bucket_name prefix) (log (EvGetBucket bucket_name) w)).
Proof.
  intros Huri Hb Hl. unfold get_ocr_output_from_bucket.
  rewrite (uri_match_of_gs_uri _ _ _ Huri).
  unfold bind at 1. unfold ret at 1.
  change (Re.group [bucket; prefix] 2) with prefix.
  unfold bind at 1. unfold get_bucket at 1, bind at 1, emit. simpl buckets.
  rewrite Hb. unfold bind at 1. unfold list_blobs at 1, bind at 1, emit.
  simpl buckets. rewrite Hb. fold (listing prefix objs). by rewrite Hl.
Qed.

Lemma empty_listing_gives_empty_text_witness :
  (get_ocr_output_from_bucket Sample.depth_limit "gs://out/ocr/x/" "out"
     (Sample.store [Sample.other])).1 = Ok EmptyString.
Proof.
  refine (f_equal fst (empty_listing_gives_empty_text
    Sample.depth_limit "gs://out/ocr/x/" "out" "ocr/x/" "out" [Sample.other]
    (Sample.store [Sample.other]) _ _ _)).
  - by apply (gs_uri_plain "out" "ocr/x/").
  - reflexivity.
  - reflexivity.
Defined.

(** ** Documents with absent fields *)

(** C4.  A document that is an object without a [responses] field, a page
    response that is an object without a full-text annotation and an
    annotation that is an object without a text value add no text and raise
    nothing; on well-formed output (every file a JSON object that the
    interpreter can load, whose [responses], if there, is an array of page
    objects, whose annotation, if there, is an object, whose text, if
    there, is a string) the result is the concatenation of the text values
    that are there, in the order of the [responses] array inside each
    blob.  A document or an annotation of another type without the field
    raises: see [absent_fields_can_raise]. *)
Theorem absent_fields_add_no_text
    depth_limit uri bucket prefix bucket_name objs w :
  gs_uri uri bucket prefix →
  buckets w !! bucket_name = Some objs →
  NoDup (name <$> objs) →
  let files :=
    List.filter is_file (sorted extract_page_number (listing prefix objs)) in
  forallb (blob_ok depth_limit) files = true →
  (get_ocr_output_from_bucket depth_limit uri bucket_name w).1
  = Ok (join (blob_text depth_limit <$> files))
  ∧ (∀ acc bytes d,
       Utf8.valid bytes = true →
       Json.loads depth_limit bytes = Ok (JObject d) →
       Dict.get "responses" d = None →
       add_document_text depth_limit acc bytes = Ok acc)
  ∧ (∀ acc d,
       Dict.get "fullTextAnnotation" d = None →
       add_page_text acc (JObject d) = Ok acc)
  ∧ (∀ acc d f,
       Dict.get "fullTextAnnotation" d = Some (JObject f) →
       Dict.get "text" f = None →
       add_page_text acc (JObject d) = Ok acc)
  ∧ (∀ acc d f t,
       Dict.get "fullTextAnnotation" d = Some (JObject f) →
       Dict.get "text" f = Some (JString t) →
       add_page_text acc (JObject d) = Ok (acc +:+ t)).
Proof.
  intros Huri Hb Hnd files Hok.
  split.
  { rewrite (get_ocr_output_result _ _ Hnd _ _ _ _ _ Huri Hb).
    by rewrite texts_of_ok. }
  split; [intros; by eapply add_document_text_no_responses |].
  split; [intros; by apply add_page_text_absent |].
  split; [intros; by eapply add_page_text_no_text |].
  intros; by eapply add_page_text_present.
Qed.

Lemma absent_fields_add_no_text_witness :
  (get_ocr_output_from_bucket Sample.depth_limit "gs://out/ocr/x/" "out"
     (Sample.store [Sample.sparse; Sample.manifest; Sample.hello])).1
  = Ok "Hello !".
Proof.
  refine (proj1 (absent_fields_add_no_text
    Sample.depth_limit "gs://out/ocr/x/" "out" "ocr/x/" "out"
    [Sample.sparse; Sample.manifest; Sample.hello]
    (Sample.store [Sample.sparse; Sample.manifest; Sample.hello]) _ _ _ _)).
  - by apply (gs_uri_plain "out" "ocr/x/").
  - reflexivity.
  - apply (bool_decide_unpack _). vm_compute. exact I.
  - vm_compute. reflexivity.
Defined.

(** A document that is an array has no [responses] field, and an annotation
    that is an array has no text value: reading either raises
    [AttributeError], the [get] method being one of objects only. *)
Lemma absent_fields_can_raise :
  Json.loads Sample.depth_limit (data Sample.listed) = Ok (JArray [])
  ∧ (get_ocr_output_from_bucket Sample.depth_limit "gs://out/ocr/x/" "out"
       (Sample.store [Sample.listed])).1 = Raise AttributeError
  ∧ Json.loads Sample.depth_limit (data Sample.odd_annotation)
    = Ok (JObject
            [("responses",
              JArray [JObject [("fullTextAnnotation", JArray [])]])])
  ∧ (get_ocr_output_from_bucket Sample.depth_limit "gs://out/ocr/x/" "out"
       (Sample.store [Sample.odd_annotation])).1 = Raise AttributeError.
Proof. vm_compute. repeat split. Qed.

(** ** Folder markers *)

Lemma extract_page_number_name o o' :
  name o = name o' → extract_page_number o = extract_page_number o'.
Proof. unfold extract_page_number. by intros ->. Qed.

Lemma is_file_name o o' : name o = name o' → is_file o = is_file o'.
Proof. unfold is_file. by intros ->. Qed.

Lemma same_file_listing prefix l l' :
  Forall2 same_file l l' →
  Forall2 same_file (listing prefix l) (listing prefix l').
Proof.
  induction 1 as [|o o' l l' [Hn Hd] _ IH]; [constructor |].
  unfold listing in *. simpl. rewrite <- Hn.
  destruct (Str.startswith prefix (name o)); [|done].
  by constructor.
Qed.

Lemma same_file_insert_by o o' l l' :
  same_file o o' → Forall2 same_file l l' →
  Forall2 same_file (insert_by extract_page_number o l)
                    (insert_by extract_page_number o' l').
Proof.
  intros Ho. induction 1 as [|x x' l l' Hx Hl IH]; simpl.
  - constructor; [done | constructor].
  - rewrite <- (extract_page_number_name o o') by apply Ho.
    rewrite <- (extract_page_number_name x x') by apply Hx.
    destruct (_ <=? _); constructor; try done. by constructor.
Qed.

Lemma same_file_sorted l l' :
  Forall2 same_file l l' →
  Forall2 same_file (sorted extract_page_number l)
                    (sorted extract_page_number l').
Proof.
  induction 1 as [|o o' l l' Ho _ IH]; [constructor |].
  by apply same_file_insert_by.
Qed.

Lemma same_file_files l l' :
  Forall2 same_file l l' → List.filter is_file l = List.filter is_file l'.
Proof.
  induction 1 as [|o o' l l' [Hn Hd] _ IH]; [done |]. simpl.
  rewrite <- (is_file_name o o') by done.
  destruct (is_file o) eqn:Hf; [|done]. f_equal; [|done].
  destruct o, o'. simpl in *. f_equal; auto.
Qed.

(** C5.  A listed blob whose name ends in [/] adds no text, whatever its
    content: the text is built from the other blobs alone. *)
Theorem folder_markers_add_no_text depth_limit uri bucket prefix bucket_name
    objs w :
  gs_uri uri bucket prefix →
  buckets w !! bucket_name = Some objs →
  NoDup (name <$> objs) →
  let ordered := sorted extract_page_number (listing prefix objs) in
  let files := List.filter is_file ordered in
  (get_ocr_output_from_bucket depth_limit uri bucket_name w).1
  = rfold files (λ acc b, add_document_text depth_limit acc (data b))
      EmptyString
  ∧ (∀ b, b ∈ files → Str.endswith (name b) "/" = false)
  ∧ (∀ blob acc w',
       Str.endswith (name blob) "/" = true →
       add_blob_text depth_limit bucket_name acc blob w' = (Ok acc, w'))
  ∧ (∀ objs' w',
       buckets w' !! bucket_name = Some objs' →
       NoDup (name <$> objs') →
       Forall2 same_file objs objs' →
       (get_ocr_output_from_bucket depth_limit uri bucket_name w').1
       = (get_ocr_output_from_bucket depth_limit uri bucket_name w).1).
Proof.
  intros Huri Hb Hnd ordered files.
  split; [by eapply get_ocr_output_result |].
  split.
  { intros b Hin. apply list_elem_of_In, filter_In in Hin as [_ Hf].
    by apply negb_true_iff in Hf. }
  split.
  { intros blob acc w' Hend. unfold add_blob_text. by rewrite Hend. }
  intros objs' w' Hb' Hnd' Hsame.
  rewrite (get_ocr_output_result _ _ Hnd _ _ _ _ _ Huri Hb).
  rewrite (get_ocr_output_result _ _ Hnd' _ _ _ _ _ Huri Hb').
  unfold texts_of. f_equal. symmetry.
  by apply same_file_files, same_file_sorted, same_file_listing.
Qed.

Lemma folder_markers_add_no_text_witness :
  (get_ocr_output_from_bucket Sample.depth_limit "gs://out/ocr/x/" "out"
     (Sample.store [Sample.folder; Sample.world; Sample.hello])).1
  = Ok "Hello World".
Proof.
  refine (eq_trans (proj1 (folder_markers_add_no_text
    Sample.depth_limit "gs://out/ocr/x/" "out" "ocr/x/" "out"
    [Sample.folder; Sample.world; Sample.hello]
    (Sample.store [Sample.folder; Sample.world; Sample.hello]) _ _ _)) _).
  - by apply (gs_uri_plain "out" "ocr/x/").
  - reflexivity.
  - apply (bool_decide_unpack _). vm_compute. exact I.
  - vm_compute. reflexivity.
Defined.

(** ** Cleanup *)

Lemma NoDup_names_filter (p : Blob → bool) l :
  NoDup (name <$> l) → NoDup (name <$> List.filter p l).
Proof.
  induction l as [|o l IH]; simpl; [done |].
  rewrite NoDup_cons. intros [Ho Hl].
  destruct (p o); simpl; [|by apply IH].
  apply NoDup_cons. split; [|by apply IH].
  intros (b & Hn & Hin)%list_elem_of_fmap. apply Ho.
  apply list_elem_of_In, filter_In in Hin as [Hin _].
  rewrite Hn. by apply list_elem_of_fmap_2, list_elem_of_In.
Qed.

Lemma existsb_named n l : existsb (named n) l = true ↔ n ∈ name <$> l.
Proof.
  rewrite existsb_exists, list_elem_of_fmap. unfold named.
  split; intros (b & H1 & H2).
  - exists b. apply bool_decide_eq_true in H2. by rewrite list_elem_of_In.
  - exists b. rewrite bool_decide_eq_true. by rewrite <- list_elem_of_In.
Qed.

Lemma filter_twice (p q : Blob → bool) l :
  List.filter q (List.filter p l) = List.filter (λ o, p o && q o) l.
Proof.
  induction l as [|o l IH]; simpl; [done |].
  destruct (p o); simpl; [|done]. destruct (q o); by rewrite IH.
Qed.

Lemma filter_all (l : list Blob) : List.filter (λ _, true) l = l.
Proof. induction l as [|o l IH]; simpl; [done | by rewrite IH]. Qed.

(** The loop of deletions removes the objects named by [blobs], and nothing
    else. *)
Lemma for_each_delete bucket_name blobs :
  ∀ objs w,
    buckets w !! bucket_name = Some objs →
    NoDup (name <$> blobs) →
    (∀ b, b ∈ blobs → name b ∈ name <$> objs) →
    ∃ w',
      for_each blobs (blob_delete bucket_name) w = (Ok (), w')
      ∧ buckets w'
        = <[bucket_name :=
              List.filter (λ o, negb (existsb (named (name o)) blobs)) objs]>
            (buckets w)
      ∧ trace w'
        = trace w ++ ((λ b, EvDelete bucket_name (name b)) <$> blobs)
      ∧ urandom w' = urandom w ∧ draws w' = draws w ∧ ocr w' = ocr w.
Proof.
  induction blobs as [|b blobs IH]; intros objs w Hb Hnd Hin.
  - exists w. simpl. rewrite filter_all, app_nil_r.
    by rewrite insert_id.
  - rewrite fmap_cons, NoDup_cons in Hnd. destruct Hnd as [Hfresh Hnd].
    assert (existsb (named (name b)) objs = true) as Hex
      by (apply existsb_named, Hin; left).
    set (objs1 := List.filter (λ o, negb (named (name b) o)) objs).
    set (w1 := set_buckets <[bucket_name := objs1]>
                 (log (EvDelete bucket_name (name b)) w)).
    assert (blob_delete bucket_name b w = (Ok (), w1)) as Hdel.
    { unfold blob_delete, bind, emit. simpl. by rewrite Hb, Hex. }
    assert (buckets w1 !! bucket_name = Some objs1) as Hb1
      by (simpl; apply lookup_insert_eq).
    assert (∀ b', b' ∈ blobs → name b' ∈ name <$> objs1) as Hin1.
    { intros b' Hb'.
      assert (name b' ∈ name <$> objs) as (o & Ho & Hoin)%list_elem_of_fmap
        by (apply Hin; by right).
      rewrite Ho. apply list_elem_of_fmap_2, list_elem_of_In, filter_In.
      split; [by apply list_elem_of_In |].
      apply negb_true_iff, bool_decide_eq_false. intros E. apply Hfresh.
      rewrite <- E, <- Ho. by apply list_elem_of_fmap_2. }
    destruct (IH objs1 w1 Hb1 Hnd Hin1) as (w' & Hrun & Hbk & Htr & ? & ? & ?).
    exists w'. simpl for_each. unfold bind at 1. rewrite Hdel.
    split; [done |]. split; [|split; [|done]].
    + rewrite Hbk. simpl. rewrite insert_insert_eq. f_equal.
      unfold objs1. rewrite filter_twice. apply filter_ext. intros o.
      simpl. unfold named at 1 3.
      rewrite negb_orb. f_equal. f_equal.
      apply bool_decide_ext. split; congruence.
    + rewrite Htr. simpl. by rewrite <- app_assoc.
Qed.

Lemma listed_names prefix objs o :
  o ∈ objs →
  existsb (named (name o)) (listing prefix objs)
  = Str.startswith prefix (name o).
Proof.
  intros Ho. destruct (Str.startswith prefix (name o)) eqn:Hs.
  - apply existsb_named, list_elem_of_fmap_2, list_elem_of_In, filter_In.
    split; [by apply list_elem_of_In | done].
  - apply not_true_is_false. intros (b & Hn & Hb)%existsb_named%list_elem_of_fmap.
    apply list_elem_of_In, filter_In in Hb as [_ Hb]. congruence.
Qed.

(** C6.  Cleanup deletes exactly the objects whose name starts with the
    prefix and leaves every other object as it was; with no such object it
    succeeds and the bucket is unchanged. *)
Theorem cleanup_deletes_exactly_the_prefix bucket_name prefix objs w :
  buckets w !! bucket_name = Some objs →
  NoDup (name <$> objs) →
  let deleted := listing prefix objs in
  let kept :=
    List.filter (λ b, negb (Str.startswith prefix (name b))) objs in
  ∃ w',
    clear_ocr_output_folder bucket_name prefix w = (Ok (), w')
    ∧ buckets w' = <[bucket_name := kept]> (buckets w)
    ∧ trace w'
      = trace w
        ++ [EvGetBucket bucket_name; EvListBlobs bucket_name prefix]
        ++ ((λ b, EvDelete bucket_name (name b)) <$> deleted)
        ++ [EvPrint ("All blobs with prefix '" +:+ prefix
                     +:+ "' have been deleted from bucket '"
                     +:+ bucket_name +:+ "'.")]
    ∧ (∀ b, b ∈ kept ↔ b ∈ objs ∧ Str.startswith prefix (name b) = false)
    ∧ (∀ other, other ≠ bucket_name →
         buckets w' !! other = buckets w !! other)
    ∧ (deleted = [] → buckets w' = buckets w).
Proof.
  intros Hb Hnd deleted kept.
  set (w1 := log (EvListBlobs bucket_name prefix)
               (log (EvGetBucket bucket_name) w)).
  destruct (for_each_delete bucket_name deleted objs w1)
    as (w2 & Hrun & Hbk & Htr & _); [done | by apply NoDup_names_filter | |].
  { intros b Hin. apply list_elem_of_fmap_2.
    apply list_elem_of_In, filter_In in Hin as [Hin _].
    by apply list_elem_of_In. }
  assert (buckets w2 = <[bucket_name := kept]> (buckets w)) as Hkept.
  { rewrite Hbk. simpl. f_equal. apply filter_ext_in. intros o Ho.
    f_equal. apply listed_names. by apply list_elem_of_In. }
  exists (log (EvPrint ("All blobs with prefix '" +:+ prefix
                        +:+ "' have been deleted from bucket '"
                        +:+ bucket_name +:+ "'.")) w2).
  split.
  { unfold clear_ocr_output_folder.
    unfold bind at 1. unfold get_bucket at 1, bind at 1, emit.
    simpl buckets. rewrite Hb.
    unfold bind at 1. unfold list_blobs at 1, bind at 1, emit.
    simpl buckets. rewrite Hb. fold (listing prefix objs). fold deleted.
    fold w1. unfold bind at 1.
    change (λ blob, blob_delete bucket_name blob)
      with (blob_delete bucket_name).
    by rewrite Hrun. }
  split; [done |].
  split.
  { simpl. rewrite Htr. simpl. by rewrite <- !app_assoc. }
  split.
  { intros b. unfold kept. rewrite list_elem_of_In, filter_In.
    rewrite <- list_elem_of_In, negb_true_iff. done. }
  split.
  { intros other Hne. simpl. rewrite Hkept. by apply lookup_insert_ne. }
  intros Hnone. simpl. rewrite Hbk, Hnone. simpl. rewrite filter_all.
  by apply insert_id.
Qed.

Lemma cleanup_deletes_exactly_the_prefix_witness :
  ∃ w',
    clear_ocr_output_folder "out" "ocr/x"
      (Sample.store [Sample.other; Sample.hello; Sample.folder]) = (Ok (), w')
    ∧ buckets w' = <["out" := [Sample.other]]>
                     (buckets (Sample.store [Sample.other; Sample.hello;
                                             Sample.folder])).
Proof.
  destruct (cleanup_deletes_exactly_the_prefix "out" "ocr/x"
    [Sample.other; Sample.hello; Sample.folder]
    (Sample.store [Sample.other; Sample.hello; Sample.folder]))
    as (w' & Hrun & Hbk & _).
  - reflexivity.
  - apply (bool_decide_unpack _). vm_compute. exact I.
  - exists w'. split; [exact Hrun | exact Hbk].
Defined.

(** ** What a run calls *)

Section traces.

Lemma storage_only_ret {A} (a : A) : storage_only (ret a).
Proof. intros w. exists []. by rewrite app_nil_r. Qed.

Lemma storage_only_raise {A} e : storage_only (@raise A e).
Proof. intros w. exists []. by rewrite app_nil_r. Qed.

Lemma storage_only_lift {A} (r : result A) : storage_only (lift r).
Proof. intros w. exists []. by rewrite app_nil_r. Qed.

Lemma storage_only_emit e : is_storage e = true → storage_only (emit e).
Proof. intros He w. exists [e]. simpl. by rewrite He. Qed.

Lemma storage_only_bind {A B} (m : M A) (f : A → M B) :
  storage_only m → (∀ a, storage_only (f a)) → storage_only (bind m f).
Proof.
  intros Hm Hf w. unfold bind.
  destruct (Hm w) as (evs1 & Ht1 & Hs1 & Hu1 & Hd1 & Ho1).
  destruct (m w) as [[a|e] w1]; simpl in *.
  - destruct (Hf a w1) as (evs2 & Ht2 & Hs2 & Hu2 & Hd2 & Ho2).
    exists (evs1 ++ evs2). rewrite Ht2, Ht1, Hu2, Hd2, Ho2, forallb_app, Hs1, Hs2.
    by rewrite <- app_assoc.
  - by exists evs1.
Qed.

(** A step that reads or writes the buckets and calls nothing. *)
Lemma storage_only_silent {A} (m : M A) :
  (∀ w, trace (m w).2 = trace w ∧ urandom (m w).2 = urandom w
        ∧ draws (m w).2 = draws w ∧ ocr (m w).2 = ocr w) →
  storage_only m.
Proof.
  intros H w. destruct (H w) as (Ht & ? & ? & ?).
  exists []. by rewrite app_nil_r.
Qed.

Lemma storage_only_get_bucket bucket_name :
  storage_only (get_bucket bucket_name).
Proof.
  apply storage_only_bind; [by apply storage_only_emit |]. intros _.
  apply storage_only_silent. intros w. by destruct (buckets w !! bucket_name).
Qed.

Lemma storage_only_list_blobs bucket prefix :
  storage_only (list_blobs bucket prefix).
Proof.
  apply storage_only_bind; [by apply storage_only_emit |]. intros _.
  apply storage_only_silent. intros w. by destruct (buckets w !! bucket).
Qed.

Lemma storage_only_blob_delete bucket blob :
  storage_only (blob_delete bucket blob).
Proof.
  apply storage_only_bind; [by apply storage_only_emit |]. intros _.
  apply storage_only_silent. intros w.
  destruct (buckets w !! bucket) as [objs|]; [|done].
  by destruct (existsb _ objs).
Qed.

Lemma storage_only_download bucket blob :
  storage_only (download_as_bytes bucket blob).
Proof.
  apply storage_only_bind; [by apply storage_only_emit |]. intros _.
  apply storage_only_silent. intros w.
  destruct (buckets w !! bucket) as [objs|]; [|done].
  by destruct (List.find _ objs).
Qed.

Lemma storage_only_for_each {A} (l : list A) body :
  (∀ x, storage_only (body x)) → storage_only (for_each l body).
Proof.
  intros Hbody. induction l as [|x l IH]; simpl.
  - apply storage_only_ret.
  - by apply storage_only_bind.
Qed.

Lemma storage_only_for_fold {A S} (l : list A) (body : S → A → M S) s :
  (∀ s x, storage_only (body s x)) → storage_only (for_fold l body s).
Proof.
  intros Hbody. revert s. induction l as [|x l IH]; intros s; simpl.
  - apply storage_only_ret.
  - by apply storage_only_bind.
Qed.

Lemma storage_only_clear bucket_name prefix :
  storage_only (clear_ocr_output_folder bucket_name prefix).
Proof.
  apply storage_only_bind; [apply storage_only_get_bucket |]. intros bucket.
  apply storage_only_bind; [apply storage_only_list_blobs |]. intros blobs.
  apply storage_only_bind.
  - apply storage_only_for_each. intros blob. apply storage_only_blob_delete.
  - intros _. by apply storage_only_emit.
Qed.

Lemma storage_only_add_blob_text depth_limit bucket acc blob :
  storage_only (add_blob_text depth_limit bucket acc blob).
Proof.
  unfold add_blob_text. destruct (negb _).
  - apply storage_only_bind; [apply storage_only_download |]. intros bytes.
    apply storage_only_lift.
  - apply storage_only_ret.
Qed.

Lemma storage_only_get_ocr_output depth_limit uri bucket_name :
  storage_only (get_ocr_output_from_bucket depth_limit uri bucket_name).
Proof.
  apply storage_only_bind.
  { destruct (Re.re_match uri_re uri);
      [apply storage_only_ret | apply storage_only_raise]. }
  intros prefix.
  apply storage_only_bind; [apply storage_only_get_bucket |]. intros bucket.
  apply storage_only_bind; [apply storage_only_list_blobs |]. intros blobs.
  apply storage_only_for_fold. intros acc blob.
  apply storage_only_add_blob_text.
Qed.

Lemma submissions_storage evs :
  forallb is_storage evs = true → submissions evs = [] ∧ waits evs = [].
Proof.
  induction evs as [|e evs IH]; simpl; [done |].
  intros [He Hevs]%andb_true_iff. destruct e; try done; by apply IH.
Qed.

Lemma submissions_app evs1 evs2 :
  submissions (evs1 ++ evs2) = submissions evs1 ++ submissions evs2.
Proof.
  induction evs1 as [|e evs1 IH]; simpl; [done |].
  destruct e; simpl; by rewrite ?IH.
Qed.

Lemma waits_app evs1 evs2 : waits (evs1 ++ evs2) = waits evs1 ++ waits evs2.
Proof.
  induction evs1 as [|e evs1 IH]; simpl; [done |].
  destruct e; simpl; by rewrite ?IH.
Qed.

Lemma events_of_app {A} (m : M A) w evs :
  trace (m w).2 = trace w ++ evs → events_of m w = evs.
Proof. intros H. unfold events_of. by rewrite H, drop_app_length. Qed.

End traces.

(** ** The destination URI *)

Lemma get_ocr_output_parsed depth_limit uri bucket prefix bucket_name w :
  gs_uri uri bucket prefix →
  get_ocr_output_from_bucket depth_limit uri bucket_name w
  = (let! handle := get_bucket bucket_name in
     let! blobs := list_blobs handle prefix in
     for_fold (sorted extract_page_number blobs)
       (add_blob_text depth_limit handle) EmptyString) w.
Proof.
  intros Huri. unfold get_ocr_output_from_bucket.
  by rewrite (uri_match_of_gs_uri _ _ _ Huri).
Qed.

(** C10.  The URI has to read as [gs://<bucket>/<non-empty path>].  When it
    does, the parse succeeds and the listing is asked for the path; when it
    does not, the function raises on the failed match and returns no
    string. *)
Theorem uri_precondition depth_limit uri bucket_name w :
  (∀ bucket prefix,
     gs_uri uri bucket prefix →
     Re.re_match uri_re uri = Some [bucket; prefix]
     ∧ match buckets w !! bucket_name with
       | Some objs =>
           (∃ evs,
              trace (get_ocr_output_from_bucket depth_limit uri bucket_name w).2
              = trace w ++ EvGetBucket bucket_name
                  :: EvListBlobs bucket_name prefix :: evs)
           ∧ (NoDup (name <$> objs) →
              (get_ocr_output_from_bucket depth_limit uri bucket_name w).1
              = texts_of depth_limit (sorted extract_page_number (listing
                  prefix objs))
                  EmptyString)
       | None =>
           get_ocr_output_from_bucket depth_limit uri bucket_name w
           = (Raise NotFound, log (EvGetBucket bucket_name) w)
       end)
  ∧ ((∀ bucket prefix, ¬ gs_uri uri bucket prefix) →
     Re.re_match uri_re uri = None
     ∧ get_ocr_output_from_bucket depth_limit uri bucket_name w
       = (Raise AttributeError, w))
  ∧ (is_Some (Re.re_match uri_re uri) ↔ ∃ bucket prefix, gs_uri uri bucket prefix).
Proof.
  split; [|split].
  - intros bucket prefix Huri. split; [by apply uri_match_of_gs_uri |].
    destruct (buckets w !! bucket_name) as [objs|] eqn:Hb.
    + split; [|intros Hnd; by eapply get_ocr_output_result].
      rewrite (get_ocr_output_parsed _ _ _ _ _ _ Huri).
      unfold bind at 1. unfold get_bucket at 1, bind at 1, emit.
      simpl buckets. rewrite Hb.
      unfold bind at 1. unfold list_blobs at 1, bind at 1, emit.
      simpl buckets. rewrite Hb.
      destruct (storage_only_for_fold
                  (sorted extract_page_number
                     (List.filter (λ b, Str.startswith prefix (name b)) objs))
                  (add_blob_text depth_limit bucket_name) EmptyString
                  (storage_only_add_blob_text depth_limit bucket_name)
                  (log (EvListBlobs bucket_name prefix)
                     (log (EvGetBucket bucket_name) w)))
        as (evs & Ht & _).
      exists evs. rewrite Ht. simpl. by rewrite <- !app_assoc.
    + rewrite (get_ocr_output_parsed _ _ _ _ _ _ Huri).
      unfold bind at 1. unfold get_bucket at 1, bind at 1, emit.
      simpl buckets. by rewrite Hb.
  - intros Hno. pose proof (uri_no_match _ Hno) as Hm. split; [done |].
    unfold get_ocr_output_from_bucket. by rewrite Hm.
  - split.
    + intros [m Hm]. destruct (gs_uri_of_uri_match _ _ Hm) as (b & p & _ & H).
      by exists b, p.
    + intros (b & p & H). rewrite (uri_match_of_gs_uri _ _ _ H). eauto.
Qed.

Lemma uri_precondition_witness :
  Re.re_match uri_re "gs://out/ocr/x/" = Some ["out"; "ocr/x/"]
  ∧ get_ocr_output_from_bucket Sample.depth_limit "out/ocr/x/" "out"
      (Sample.store [])
    = (Raise AttributeError, Sample.store []).
Proof.
  split.
  - apply (proj1 (uri_precondition Sample.depth_limit "gs://out/ocr/x/" "out"
      (Sample.store []))).
    by apply (gs_uri_plain "out" "ocr/x/").
  - apply (proj1 (proj2 (uri_precondition Sample.depth_limit "out/ocr/x/" "out"
      (Sample.store [])))).
    intros bucket prefix (tail & Heq & _). discriminate Heq.
Defined.

(** ** The OCR job *)

Lemma async_document_extract_unfold depth_limit bucket name output_bucket
    timeout w :
  async_document_extract depth_limit bucket name output_bucket timeout w
  = match clear_ocr_output_folder output_bucket ("ocr/" +:+ next_id w)
            (log (EvUuid4 (next_id w)) (draw w)) with
    | (Ok _, w1) =>
        submit_and_collect depth_limit
          (ocr_request bucket name output_bucket (next_id w))
          (default 420 timeout) output_bucket w1
    | (Raise e, w1) => (Raise e, w1)
    end.
Proof. reflexivity. Qed.

Lemma submit_and_collect_unfold depth_limit request timeout output_bucket w :
  submit_and_collect depth_limit request timeout output_bucket w
  = let operation := ocr w [request] in
    let w1 := log (EvAnnotate [request]) w in
    if accepted operation then
      let w3 :=
        log (EvResult timeout)
          (log (EvPrint "OCR: waiting for the operation to finish.") w1) in
      if timeout <? duration operation then (Raise TimeoutError, w3)
      else match outcome operation with
           | Ok written =>
               get_ocr_output_from_bucket depth_limit
                 (destination_uri (gcs_destination (output_config request)))
                 output_bucket (set_buckets written w3)
           | Raise e => (Raise e, w3)
           end
    else (Raise ServiceError, w1).
Proof.
  unfold submit_and_collect, async_batch_annotate_files, print,
    operation_result, bind, emit. simpl.
  destruct (accepted (ocr w [request])); [|done].
  destruct (timeout <? duration (ocr w [request])); [done |].
  by destruct (outcome (ocr w [request])).
Qed.

Lemma submit_and_collect_trace depth_limit request timeout output_bucket w :
  let run := submit_and_collect depth_limit request timeout output_bucket w in
  let operation := ocr w [request] in
  ∃ after,
    trace run.2 = trace w ++ EvAnnotate [request] :: after
    ∧ submissions after = []
    ∧ draws run.2 = draws w
    ∧ (accepted operation = false →
       after = [] ∧ run.1 = Raise ServiceError)
    ∧ (accepted operation = true →
       ∃ reading,
         after = EvPrint "OCR: waiting for the operation to finish."
                   :: EvResult timeout :: reading
         ∧ forallb is_storage reading = true
         ∧ (timeout < duration operation →
            reading = [] ∧ run.1 = Raise TimeoutError)).
Proof.
  intros run operation. subst run.
  rewrite submit_and_collect_unfold. cbv zeta. fold operation.
  destruct (accepted operation) eqn:Hacc.
  - destruct (Z.ltb_spec timeout (duration operation)) as [Hlt | Hge].
    + eexists. split; [simpl; by rewrite <- !app_assoc |].
      split; [done |]. split; [done |]. split; [done |]. intros _.
      exists []. repeat split.
    + destruct (outcome operation) as [written | e].
      * set (w4 := set_buckets written _).
        destruct (storage_only_get_ocr_output depth_limit
                    (destination_uri (gcs_destination (output_config request)))
                    output_bucket w4) as (reading & Ht & Hs & _ & Hd & _).
        exists (EvPrint "OCR: waiting for the operation to finish."
                  :: EvResult timeout :: reading).
        split; [rewrite Ht; simpl; by rewrite <- !app_assoc |].
        split; [simpl; by apply submissions_storage |].
        split; [by rewrite Hd |]. split; [done |]. intros _.
        exists reading. split; [done |]. split; [done |]. lia.
      * eexists. split; [simpl; by rewrite <- !app_assoc |].
        split; [done |]. split; [done |]. split; [done |]. intros _.
        exists []. split; [done |]. split; [done |]. lia.
  - exists []. repeat split; try done.
Qed.




(** C8, as the code has it.  A run whose cleanup raises nothing submits
    exactly one batch, of one request: document text detection as its only
    feature, the PDF [gs://bucket/name] as input, [gs://output_bucket/ocr/<id>/]
    as output location, batch size 2.  If the service accepts the batch, the
    run waits once on the operation, with the timeout it was given or 420
    seconds, and when the operation takes longer it raises the timeout error
    and calls nothing more. *)
Theorem one_batch_request depth_limit bucket name output_bucket timeout w :
  let unique_id := next_id w in
  let drawn := log (EvUuid4 unique_id) (draw w) in
  let cleanup :=
    clear_ocr_output_folder output_bucket ("ocr/" +:+ unique_id) in
  let request := ocr_request bucket name output_bucket unique_id in
  let operation := ocr w [request] in
  let seconds := match timeout with Some t => t | None => 420 end in
  let run := async_document_extract depth_limit bucket name output_bucket
      timeout in
  (cleanup drawn).1 = Ok () →
  submissions (events_of run w) = [[request]]
  ∧ (accepted operation = false →
     waits (events_of run w) = [] ∧ (run w).1 = Raise ServiceError)
  ∧ (accepted operation = true →
     waits (events_of run w) = [seconds]
     ∧ (seconds < duration operation →
        (run w).1 = Raise TimeoutError
        ∧ events_of run w
          = EvUuid4 unique_id :: events_of cleanup drawn
            ++ [EvAnnotate [request];
                EvPrint "OCR: waiting for the operation to finish.";
                EvResult seconds])).
Proof.
  cbv zeta.
  set (prefix := "ocr/" +:+ next_id w).
  set (drawn := log (EvUuid4 (next_id w)) (draw w)).
  set (request := ocr_request bucket name output_bucket (next_id w)).
  set (seconds := match timeout with Some t => t | None => 420 end).
  intros Hclean.
  destruct (storage_only_clear output_bucket prefix drawn)
    as (cev & Ht & Hs & _ & _ & Ho).
  rewrite (events_of_app _ _ _ Ht).
  destruct (submissions_storage _ Hs) as [Hsub Hwait].
  assert (∀ later,
    trace (async_document_extract depth_limit bucket name output_bucket timeout
        w).2
    = trace (clear_ocr_output_folder output_bucket prefix drawn).2 ++ later →
    events_of (async_document_extract depth_limit bucket name output_bucket
        timeout) w
    = EvUuid4 (next_id w) :: cev ++ later) as Hev.
  { intros later Hl. apply events_of_app. rewrite Hl, Ht. simpl.
    by rewrite <- !app_assoc. }
  rewrite async_document_extract_unfold in Hev |- *.
  fold prefix drawn request in Hev |- *.
  change (default 420 timeout) with seconds in Hev |- *.
  destruct (clear_ocr_output_folder output_bucket prefix drawn)
    as [[[]|e] w1] eqn:Hc; simpl in Hclean, Ht, Ho; [|done].
  destruct (submit_and_collect_trace depth_limit request seconds output_bucket
      w1)
    as (after & Hta & Hsa & _ & Hrefused & Haccepted).
  rewrite Ho in Hrefused, Haccepted. change (ocr drawn) with (ocr w) in *.
  rewrite (Hev _ Hta).
  split; [|split].
  - simpl. rewrite submissions_app, Hsub. simpl. by rewrite Hsa.
  - intros Hacc. destruct (Hrefused Hacc) as [-> Hr]. split; [|done].
    simpl. by rewrite waits_app, Hwait.
  - intros Hacc. destruct (Haccepted Hacc) as (reading & -> & Hrs & Hslow).
    split.
    + simpl. rewrite waits_app, Hwait. simpl.
      by destruct (submissions_storage _ Hrs) as [_ ->].
    + intros Hlt. by destruct (Hslow Hlt) as [-> ->].
Qed.

Lemma one_batch_request_witness :
  (async_document_extract Sample.depth_limit "in" "doc.pdf" "out" None
      Sample.slow).1
  = Raise TimeoutError
  ∧ submissions (events_of (async_document_extract Sample.depth_limit "in"
      "doc.pdf" "out" None)
                   Sample.slow)
    = [[ocr_request "in" "doc.pdf" "out" (next_id Sample.slow)]].
Proof.
  destruct (one_batch_request Sample.depth_limit "in" "doc.pdf" "out" None
      Sample.slow)
    as (Hsub & _ & Hacc).
  - vm_compute. reflexivity.
  - destruct (Hacc eq_refl) as [_ Hslow]. split; [|exact Hsub].
    apply Hslow. vm_compute. reflexivity.
Defined.

(** A run whose cleanup fails submits no batch, and a run whose batch the
    service refuses waits on no operation. *)
Lemma no_batch_after_failed_cleanup :
  (async_document_extract Sample.depth_limit "in" "doc.pdf" "missing" None
     (Sample.store [])).1 = Raise NotFound
  ∧ submissions
      (events_of (async_document_extract Sample.depth_limit "in" "doc.pdf"
          "missing" None)
         (Sample.store [])) = []
  ∧ (async_document_extract Sample.depth_limit "in" "doc.pdf" "out" None
      Sample.refusing).1
    = Raise ServiceError
  ∧ waits
      (events_of (async_document_extract Sample.depth_limit "in" "doc.pdf"
          "out" None)
         Sample.refusing) = [].
Proof. vm_compute. repeat split. Qed.

(** ** The parser has enough fuel *)

Section parser_fuel.

Import Json.
Local Open Scope nat_scope.

Lemma skip_ws_length s : String.length (skip_ws s) ≤ String.length s.
Proof.
  induction s as [|c s IH]; simpl; [done |].
  destruct (is_ws c); simpl; lia.
Qed.

Lemma chop_length lit s r :
  Str.chop lit s = Some r →
  String.length s = String.length lit + String.length r.
Proof. intros ->%chop_Some. apply app_length'. Qed.

Lemma scan_string_length n :
  ∀ s acc x r,
    String.length s ≤ n → scan_string acc s = Ok (x, r) →
    String.length r < String.length s.
Proof.
  induction n as [|n IH]; intros s acc x r Hn H.
  - destruct s; [done | simpl in Hn; lia].
  - destruct s as [|c s1]; [done |]. simpl in H.
    repeat case_match; simplify_eq; cbn [String.length] in *;
      try lia; try (apply IH in H; cbn [String.length] in *; lia).
Qed.

Lemma digits_length s ds r :
  digits s = (ds, r) → String.length r ≤ String.length s.
Proof.
  revert ds r. induction s as [|c s IH]; intros ds r; simpl.
  - by intros [= <- <-].
  - destruct (Str.is_digit c).
    + destruct (digits s) as [ds' r'] eqn:E. intros [= <- <-].
      specialize (IH _ _ eq_refl). lia.
    + intros [= <- <-]. simpl. lia.
Qed.

Lemma scan_int_length s i r :
  scan_int s = Some (i, r) → String.length r < String.length s.
Proof.
  unfold scan_int. intros H.
  repeat case_match; simplify_eq; cbn [String.length] in *; try lia;
    match goal with
    | E : digits _ = _ |- _ =>
        apply digits_length in E; cbn [String.length] in *; lia
    end.
Qed.

Lemma scan_frac_length s f r :
  scan_frac s = (f, r) → String.length r ≤ String.length s.
Proof.
  unfold scan_frac. intros H.
  repeat case_match; simplify_eq; cbn [String.length] in *; try lia;
    match goal with
    | E : digits _ = _ |- _ =>
        apply digits_length in E; cbn [String.length] in *; lia
    end.
Qed.

Lemma scan_exp_length s e r :
  scan_exp s = (e, r) → String.length r ≤ String.length s.
Proof.
  unfold scan_exp. intros H.
  repeat case_match; simplify_eq; cbn [String.length] in *; try lia;
    match goal with
    | E : digits _ = _ |- _ =>
        apply digits_length in E; cbn [String.length] in *; lia
    end.
Qed.

Lemma scan_number_length s n r :
  scan_number s = Some (n, r) → String.length r < String.length s.
Proof.
  unfold scan_number. intros H.
  destruct (scan_int s) as [[i r1]|] eqn:Hi; [|done].
  destruct (scan_frac r1) as [f r2] eqn:Hf.
  destruct (scan_exp r2) as [e r3] eqn:He.
  apply scan_int_length in Hi. apply scan_frac_length in Hf.
  apply scan_exp_length in He.
  assert (r = r3) as -> by (repeat case_match; by simplify_eq). lia.
Qed.

Lemma literal_length depth s v r :
  literal depth s = Some (v, r) → String.length r < String.length s.
Proof.
  unfold literal. intros H.
  repeat case_match; simplify_eq;
    try match goal with
        | E : scan_number _ = Some _ |- _ => by apply scan_number_length in E
        end;
    match goal with
    | E : Str.chop _ _ = Some r |- _ =>
        apply chop_length in E; cbn [String.length] in E; lia
    end.
Qed.

Lemma scan_string_shorter acc s x r :
  scan_string acc s = Ok (x, r) → String.length r < String.length s.
Proof. by apply (scan_string_length (String.length s)). Qed.

Lemma parse_value_step fuel :
  enough_fuel parse_pairs 0 fuel → enough_fuel parse_items 1 fuel →
  enough_fuel parse_value 0 (S fuel).
Proof.
  intros Hpairs Hitems depth s Hs. destruct s as [|c s1]; [done |].
  cbn [String.length] in Hs. cbn [parse_value].
  destruct (decide (c = quote)) as [_|_].
  { destruct (scan_string EmptyString s1) as [[x r]|e] eqn:Hx; [|done].
    split; [done |]. intros ? ? [= <- <-].
    apply scan_string_shorter in Hx. simpl. lia. }
  destruct (decide (c = "{"%char)) as [_|_].
  { destruct depth as [|depth]; [done |].
    pose proof (skip_ws_length s1) as Hw.
    destruct (skip_ws s1) as [|c2 s3]; [done |]. cbn [String.length] in Hw.
    destruct (decide (c2 = "}"%char)) as [_|_].
    { split; [done |]. intros ? ? [= <- <-]. simpl. lia. }
    destruct (decide (c2 = quote)) as [_|_]; [|done].
    destruct (Hpairs depth s3) as [Hr Hl]; [lia |].
    destruct (parse_pairs fuel depth s3) as [ps r| |e|]; [|done..].
    split; [done |]. intros ? ? [= <- <-]. specialize (Hl _ _ eq_refl).
    simpl. lia. }
  destruct (decide (c = "["%char)) as [_|_].
  { destruct depth as [|depth]; [done |].
    pose proof (skip_ws_length s1) as Hw.
    destruct (skip_ws s1) as [|c2 s3]; [done |]. cbn [String.length] in Hw.
    destruct (decide (c2 = "]"%char)) as [_|_].
    { split; [done |]. intros ? ? [= <- <-]. simpl. lia. }
    destruct (Hitems depth (String c2 s3)) as [Hr Hl];
      [cbn [String.length]; lia |].
    destruct (parse_items fuel depth (String c2 s3)) as [vs r| |e|];
      [|done..].
    split; [done |]. intros ? ? [= <- <-]. specialize (Hl _ _ eq_refl).
    cbn [String.length] in *. lia. }
  destruct (literal depth (String c s1)) as [[[v|e] r]|] eqn:Hlit;
    [|done..].
  split; [done |]. intros ? ? [= <- <-]. by apply literal_length in Hlit.
Qed.

Lemma parse_pairs_step fuel :
  enough_fuel parse_value 0 fuel → enough_fuel parse_pairs 0 fuel →
  enough_fuel parse_pairs 0 (S fuel).
Proof.
  intros Hvalue Hpairs depth s Hs. cbn [parse_pairs].
  destruct (scan_string EmptyString s) as [[key s1]|e] eqn:Hkey; [|done].
  apply scan_string_shorter in Hkey. pose proof (skip_ws_length s1) as Hw1.
  destruct (skip_ws s1) as [|c s2]; [done |]. cbn [String.length] in Hw1.
  destruct (decide (c = ":"%char)) as [_|_]; [|done].
  pose proof (skip_ws_length s2) as Hw2.
  destruct (Hvalue depth (skip_ws s2)) as [Hvr Hvl]; [lia |].
  destruct (parse_value fuel depth (skip_ws s2)) as [v s3| |e|]; [|done..].
  specialize (Hvl _ _ eq_refl). pose proof (skip_ws_length s3) as Hw3.
  destruct (skip_ws s3) as [|d s4]; [done |]. cbn [String.length] in Hw3.
  destruct (decide (d = "}"%char)) as [_|_].
  { split; [done |]. intros ? ? [= <- <-]. lia. }
  destruct (decide (d = ","%char)) as [_|_]; [|done].
  pose proof (skip_ws_length s4) as Hw4.
  destruct (skip_ws s4) as [|q s5]; [done |]. cbn [String.length] in Hw4.
  destruct (decide (q = quote)) as [_|_]; [|done].
  destruct (Hpairs depth s5) as [Hpr Hpl]; [lia |].
  destruct (parse_pairs fuel depth s5) as [ps r| |e|]; [|done..].
  split; [done |]. intros ? ? [= <- <-]. specialize (Hpl _ _ eq_refl). lia.
Qed.

Lemma parse_items_step fuel :
  enough_fuel parse_value 0 fuel → enough_fuel parse_items 1 fuel →
  enough_fuel parse_items 1 (S fuel).
Proof.
  intros Hvalue Hitems depth s Hs. cbn [parse_items].
  destruct (Hvalue depth s) as [Hvr Hvl]; [lia |].
  destruct (parse_value fuel depth s) as [v s1| |e|]; [|done..].
  specialize (Hvl _ _ eq_refl). pose proof (skip_ws_length s1) as Hw1.
  destruct (skip_ws s1) as [|d s2]; [done |]. cbn [String.length] in Hw1.
  destruct (decide (d = "]"%char)) as [_|_].
  { split; [done |]. intros ? ? [= <- <-]. lia. }
  destruct (decide (d = ","%char)) as [_|_]; [|done].
  pose proof (skip_ws_length s2) as Hw2.
  destruct (Hitems depth (skip_ws s2)) as [Hir Hil]; [lia |].
  destruct (parse_items fuel depth (skip_ws s2)) as [vs r| |e|]; [|done..].
  split; [done |]. intros ? ? [= <- <-]. specialize (Hil _ _ eq_refl). lia.
Qed.

Lemma parse_fuel fuel :
  enough_fuel parse_value 0 fuel
  ∧ enough_fuel parse_pairs 0 fuel
  ∧ enough_fuel parse_items 1 fuel.
Proof.
  induction fuel as [|fuel (Hv & Hp & Hi)].
  - repeat split; intros; lia.
  - split; [by apply parse_value_step |].
    split; [by apply parse_pairs_step | by apply parse_items_step].
Qed.

(** The scanner never runs out of the fuel [loads] gives it. *)
Lemma loads_fuel depth_limit s :
  parse_value (2 * String.length s + 1) depth_limit (skip_ws s) ≠ Starved.
Proof.
  apply (proj1 (parse_fuel (2 * String.length s + 1))).
  pose proof (skip_ws_length s). lia.
Qed.

End parser_fuel.

(** ** Runs on sample data *)

Example uri_with_path :
  Re.re_match uri_re "gs://bucket/ocr/abc/" = Some ["bucket"; "ocr/abc/"].
Proof. reflexivity. Qed.

Example uri_without_path : Re.re_match uri_re "gs://bucket/" = None.
Proof. reflexivity. Qed.

Example uri_without_bucket : Re.re_match uri_re "gs:///ocr/abc" = None.
Proof. reflexivity. Qed.

Example page_number_of_output :
  extract_page_number {| name := "ocr/x/output-12-to-13.json"; data := "" |}
  = 12.
Proof. reflexivity. Qed.

Example page_number_of_manifest :
  extract_page_number Sample.manifest = -1.
Proof. reflexivity. Qed.

Example page_number_leftmost_range :
  extract_page_number
    {| name := "output-7-to-.json/output-3-to-4.json"; data := "" |} = 3.
Proof. reflexivity. Qed.

Example loads_hello :
  Json.loads Sample.depth_limit (data Sample.hello)
  = Ok (JObject
          [("responses",
            JArray
              [JObject
                 [("fullTextAnnotation",
                   JObject [("text", JString "Hello ")])]])]).
Proof. reflexivity. Qed.

Example loads_last_member_wins :
  Json.loads Sample.depth_limit
    (Sample.json_text "{'a': 1, 'b': [true, null], 'a': 2.5e3}")
  = Ok (JObject [("a", JNumber "2.5e3");
                 ("b", JArray [JBool true; JNull])]).
Proof. reflexivity. Qed.

Example loads_trailing_comma :
  Json.loads Sample.depth_limit (Sample.json_text "{'a': 1,}")
  = Raise JSONDecodeError.
Proof. reflexivity. Qed.

Example responses_not_a_list :
  add_document_text Sample.depth_limit "so far"
    (Sample.json_text "{'responses': null}")
  = Raise TypeError.
Proof. reflexivity. Qed.

Example document_not_an_object :
  add_document_text Sample.depth_limit "so far" (Sample.json_text "[]")
  = Raise AttributeError.
Proof. reflexivity. Qed.

Example job_end_to_end :
  (async_document_extract Sample.depth_limit "in" "doc.pdf" "out" None
     Sample.job).1
  = Ok "Hello World".
Proof. vm_compute. reflexivity. Qed.

Example job_timeout :
  (async_document_extract Sample.depth_limit "in" "doc.pdf" "out" (Some 5)
     Sample.job).1
  = Raise TimeoutError.
Proof. vm_compute. reflexivity. Qed.

Example page_number_in_other_digits :
  extract_page_number Sample.page12 = 12
  ∧ extract_page_number
      {| name := "output-٠٠٧-to-８.json"; data := EmptyString |} = 7
  ∧ extract_page_number
      {| name := "output-١٢-to-b.json"; data := EmptyString |} = -1.
Proof. vm_compute. repeat split. Qed.

Example loads_nesting :
  (∃ v, Json.loads Sample.depth_limit (Sample.nested Sample.depth_limit)
        = Ok v)
  ∧ Json.loads Sample.depth_limit (Sample.nested (S Sample.depth_limit))
    = Raise RecursionError
  ∧ Json.loads 2 (Sample.json_text "[{'a': []}]") = Raise RecursionError
  ∧ Json.loads 2 (Sample.json_text "[{'a': 1}, [], {}]")
    = Ok (JArray [JObject [("a", JNumber "1")]; JArray []; JObject []]).
Proof.
  split; [|vm_compute; repeat split].
  destruct (Json.loads _ _) as [v|e] eqn:E; [by exists v |].
  exfalso. revert E. vm_compute. discriminate.
Qed.

Example loads_long_integer :
  Json.loads Sample.depth_limit (data Sample.long_integer)
  = Raise ValueError
  ∧ (∃ v, Json.loads Sample.depth_limit
            (data Sample.long_integer +:+ ".5") = Ok v)
  ∧ Json.loads Sample.depth_limit ("[1, " +:+ data Sample.long_integer)
    = Raise ValueError.
Proof.
  split; [vm_compute; reflexivity |]. split; [|vm_compute; reflexivity].
  destruct (Json.loads _ _) as [v|e] eqn:E; [by exists v |].
  exfalso. revert E. vm_compute. discriminate.
Qed.

Example loads_near_the_limit :
  Json.loads 2 "[1 2]" = Raise RecursionError
  ∧ Json.loads 4 "[1 2]" = Raise JSONDecodeError
  ∧ Json.loads 1 "x" = Raise RecursionError
  ∧ Json.loads 2 "x" = Raise JSONDecodeError
  ∧ Json.loads 0 "1 x" = Raise RecursionError
  ∧ Json.loads 1 "1 x" = Raise JSONDecodeError
  ∧ Json.loads 0 "NaN" = Raise RecursionError
  ∧ Json.loads 1 "[NaN]" = Raise RecursionError
  ∧ Json.loads 1 "NaN" = Ok (JNumber "NaN")
  ∧ Json.loads 0 "1.5" = Ok (JNumber "1.5").
Proof. vm_compute. repeat split. Qed.

(** A document nested too deep stops the run at its download: the files
    after it are not read. *)
Example deep_document_stops_the_run :
  let run :=
    get_ocr_output_from_bucket Sample.depth_limit "gs://out/ocr/x/" "out" in
  (run (Sample.store [Sample.world; Sample.deep])).1 = Raise RecursionError
  ∧ events_of run (Sample.store [Sample.world; Sample.deep])
    = [EvGetBucket "out"; EvListBlobs "out" "ocr/x/";
       EvDownload "out" "ocr/x/output-1-to-2.json"].
Proof. vm_compute. repeat split. Qed.

(** * More of the program's behaviour *)

(** ** Reading changes nothing *)

Section read_only_facts.

Lemma read_only_ret {A} (a : A) : read_only (ret a).
Proof. done. Qed.

Lemma read_only_raise {A} e : read_only (@raise A e).
Proof. done. Qed.

Lemma read_only_lift {A} (r : result A) : read_only (lift r).
Proof. done. Qed.

Lemma read_only_emit e : read_only (emit e).
Proof. done. Qed.

Lemma read_only_bind {A B} (m : M A) (f : A → M B) :
  read_only m → (∀ a, read_only (f a)) → read_only (bind m f).
Proof.
  intros Hm Hf w. unfold bind. specialize (Hm w).
  destruct (m w) as [[a|e] w1]; simpl in *; [|done].
  by rewrite Hf.
Qed.

Lemma read_only_get_bucket bucket_name : read_only (get_bucket bucket_name).
Proof.
  apply read_only_bind; [apply read_only_emit |]. intros _ w.
  by destruct (buckets w !! bucket_name).
Qed.

Lemma read_only_list_blobs bucket prefix : read_only (list_blobs bucket prefix).
Proof.
  apply read_only_bind; [apply read_only_emit |]. intros _ w.
  by destruct (buckets w !! bucket).
Qed.

Lemma read_only_download bucket blob :
  read_only (download_as_bytes bucket blob).
Proof.
  apply read_only_bind; [apply read_only_emit |]. intros _ w.
  destruct (buckets w !! bucket) as [objs|]; [|done].
  by destruct (List.find _ objs).
Qed.

Lemma read_only_for_fold {A S} (l : list A) (body : S → A → M S) s :
  (∀ s x, read_only (body s x)) → read_only (for_fold l body s).
Proof.
  intros Hbody. revert s. induction l as [|x l IH]; intros s; simpl.
  - apply read_only_ret.
  - by apply read_only_bind.
Qed.

Lemma read_only_add_blob_text depth_limit bucket acc blob :
  read_only (add_blob_text depth_limit bucket acc blob).
Proof.
  unfold add_blob_text. destruct (negb _).
  - apply read_only_bind; [apply read_only_download |]. intros bytes.
    apply read_only_lift.
  - apply read_only_ret.
Qed.

Lemma read_only_get_ocr_output depth_limit uri bucket_name :
  read_only (get_ocr_output_from_bucket depth_limit uri bucket_name).
Proof.
  apply read_only_bind.
  { destruct (Re.re_match uri_re uri);
      [apply read_only_ret | apply read_only_raise]. }
  intros prefix.
  apply read_only_bind; [apply read_only_get_bucket |]. intros bucket.
  apply read_only_bind; [apply read_only_list_blobs |]. intros blobs.
  apply read_only_for_fold. intros acc blob. apply read_only_add_blob_text.
Qed.

End read_only_facts.

(** X1.  Reading the output changes no stored object, draws no identifier
    and calls nothing but the storage service, whatever its arguments and
    whether it returns or raises. *)
Theorem reading_changes_nothing depth_limit uri bucket_name w :
  let after := (get_ocr_output_from_bucket depth_limit uri bucket_name w).2 in
  buckets after = buckets w
  ∧ draws after = draws w
  ∧ forallb is_storage
      (events_of (get_ocr_output_from_bucket depth_limit uri bucket_name) w) =
          true.
Proof.
  cbv zeta. split; [apply read_only_get_ocr_output |].
  destruct (storage_only_get_ocr_output depth_limit uri bucket_name w)
    as (evs & Ht & Hs & _ & Hd & _).
  split; [done |]. by rewrite (events_of_app _ _ _ Ht).
Qed.

(** X2.  Only the path of the URI is used: the objects are read from the
    bucket named by the second argument, and two URIs with the same path
    give the same run, whatever bucket they name. *)
Theorem uri_bucket_is_ignored depth_limit
    uri1 uri2 bucket1 bucket2 path bucket_name w :
  gs_uri uri1 bucket1 path →
  gs_uri uri2 bucket2 path →
  get_ocr_output_from_bucket depth_limit uri1 bucket_name w
  = get_ocr_output_from_bucket depth_limit uri2 bucket_name w
  ∧ get_ocr_output_from_bucket depth_limit uri1 bucket_name w
    = (let! handle := get_bucket bucket_name in
       let! blobs := list_blobs handle path in
       for_fold (sorted extract_page_number blobs)
         (add_blob_text depth_limit handle) EmptyString) w.
Proof.
  intros H1 H2.
  by rewrite (get_ocr_output_parsed _ _ _ _ _ _ H1),
             (get_ocr_output_parsed _ _ _ _ _ _ H2).
Qed.

Lemma uri_bucket_is_ignored_witness :
  get_ocr_output_from_bucket Sample.depth_limit "gs://elsewhere/ocr/x/" "out"
    (Sample.store [Sample.world; Sample.hello])
  = get_ocr_output_from_bucket Sample.depth_limit "gs://out/ocr/x/" "out"
      (Sample.store [Sample.world; Sample.hello]).
Proof.
  refine (proj1 (uri_bucket_is_ignored Sample.depth_limit
    "gs://elsewhere/ocr/x/" "gs://out/ocr/x/" "elsewhere" "out" "ocr/x/"
    "out" (Sample.store [Sample.world; Sample.hello]) _ _)).
  - by apply (gs_uri_plain "elsewhere" "ocr/x/").
  - by apply (gs_uri_plain "out" "ocr/x/").
Defined.

(** ** Which objects are downloaded *)

Lemma for_fold_downloads depth_limit bucket_name objs blobs acc w :
  NoDup (name <$> objs) →
  buckets w !! bucket_name = Some objs → blobs ⊆ objs →
  forallb (blob_ok depth_limit) (List.filter is_file blobs) = true →
  trace (for_fold blobs (add_blob_text depth_limit bucket_name) acc w).2
  = trace w ++ downloads bucket_name (List.filter is_file blobs).
Proof.
  intros Hnd. revert acc w.
  induction blobs as [|b blobs IH]; intros acc w Hb Hsub Hok.
  - simpl. by rewrite app_nil_r.
  - assert (b ∈ objs) as Hin by (apply Hsub; left).
    assert (blobs ⊆ objs) as Hsub' by (intros x Hx; apply Hsub; by right).
    simpl in *. unfold bind, add_blob_text. fold (is_file b).
    destruct (is_file b) eqn:Hfile; simpl in *.
    + apply andb_true_iff in Hok as [Hokb Hok].
      unfold bind. rewrite (download_listed _ _ Hnd) by done. unfold lift.
      rewrite (add_document_text_ok _ _ _ Hokb).
      rewrite IH by done. simpl. by rewrite <- app_assoc.
    + unfold ret. by apply IH.
Qed.

(** X3.  On well-formed output the function downloads each listed file
    once, in the order of the start pages, after one lookup of the bucket
    and one listing; a folder marker is never downloaded. *)
Theorem one_download_per_file depth_limit uri bucket prefix bucket_name objs w :
  gs_uri uri bucket prefix →
  buckets w !! bucket_name = Some objs →
  NoDup (name <$> objs) →
  let files :=
    List.filter is_file (sorted extract_page_number (listing prefix objs)) in
  forallb (blob_ok depth_limit) files = true →
  events_of (get_ocr_output_from_bucket depth_limit uri bucket_name) w
  = EvGetBucket bucket_name :: EvListBlobs bucket_name prefix
      :: downloads bucket_name files.
Proof.
  intros Huri Hb Hnd files Hok. apply events_of_app.
  rewrite (get_ocr_output_parsed _ _ _ _ _ _ Huri).
  unfold bind at 1. unfold get_bucket at 1, bind at 1, emit.
  simpl buckets. rewrite Hb.
  unfold bind at 1. unfold list_blobs at 1, bind at 1, emit.
  simpl buckets. rewrite Hb. fold (listing prefix objs).
  rewrite (for_fold_downloads depth_limit bucket_name objs); try done.
  - simpl. by rewrite <- !app_assoc.
  - intros b Hin. rewrite sorted_perm in Hin.
    apply list_elem_of_In, filter_In in Hin as [Hin _].
    by apply list_elem_of_In.
Qed.

Lemma one_download_per_file_witness :
  events_of (get_ocr_output_from_bucket Sample.depth_limit "gs://out/ocr/x/"
      "out")
    (Sample.store [Sample.world; Sample.folder; Sample.hello])
  = [EvGetBucket "out"; EvListBlobs "out" "ocr/x/";
     EvDownload "out" "ocr/x/output-1-to-2.json";
     EvDownload "out" "ocr/x/output-3-to-4.json"].
Proof.
  apply (one_download_per_file Sample.depth_limit "gs://out/ocr/x/" "out"
      "ocr/x/" "out"
           [Sample.world; Sample.folder; Sample.hello]).
  - by apply (gs_uri_plain "out" "ocr/x/").
  - reflexivity.
  - apply (bool_decide_unpack _). vm_compute. exact I.
  - vm_compute. reflexivity.
Defined.

(** ** Documents that raise *)



Section parser_errors.

Import Json.

Lemma message_error_scan depth : scan_error (message_error depth).
Proof.
  unfold scan_error, message_error. destruct (3 <=? depth)%nat; eauto.
Qed.

Lemma scan_number_error s e r :
  scan_number s = Some (Raise e, r) → e = ValueError.
Proof.
  unfold scan_number. intros H. repeat case_match; by simplify_eq.
Qed.

Lemma literal_error depth s e r :
  literal depth s = Some (Raise e, r) → scan_error e.
Proof.
  unfold literal, constant, scan_error. intros H.
  repeat case_match; simplify_eq; eauto.
  match goal with
  | E : scan_number _ = Some (?n, _) |- _ =>
      destruct n; simpl in *; simplify_eq;
      apply scan_number_error in E as ->; eauto
  end.
Qed.

#[local] Hint Resolve message_error_scan literal_error : core.






End parser_errors.






(** ** The exceptions of reading *)

Section raises_facts.

Context (allowed : exn → bool).







End raises_facts.







(** ** The order of the listing *)

Section distinct_keys.

Context {A : Type} (key : A → Z).

Lemma keyed_perm k (l1 l2 : list A) :
  l1 ≡ₚ l2 → keyed key k l1 ≡ₚ keyed key k l2.
Proof.
  unfold keyed. induction 1 as [|x l1 l2 _ IH|x y l|l1 l2 l3 _ IH1 _ IH2];
    simpl.
  - done.
  - destruct (key x =? k); by rewrite IH.
  - destruct (key x =? k), (key y =? k); try done. apply Permutation_swap.
  - by rewrite IH1.
Qed.

Lemma keyed_distinct k (l : list A) :
  NoDup (key <$> l) → (length (keyed key k l) ≤ 1)%nat.
Proof.
  unfold keyed. induction l as [|x l IH]; simpl; [lia |].
  rewrite NoDup_cons. intros [Hx Hl]. specialize (IH Hl).
  destruct (Z.eqb_spec (key x) k) as [Hk | Hk]; [|done]. simpl.
  destruct (List.filter (λ y, key y =? k) l) as [|y l'] eqn:E; [simpl; lia |].
  exfalso. apply Hx.
  assert (In y (List.filter (λ y, key y =? k) l)) as Hin by (rewrite E; left; reflexivity).
  apply filter_In in Hin as [Hin Hy]. apply Z.eqb_eq in Hy.
  rewrite Hk, <- Hy. by apply list_elem_of_fmap_2, list_elem_of_In.
Qed.

(** With pairwise distinct keys the sorted list does not depend on the order
    of the input. *)
Lemma sorted_perm_distinct (l1 l2 : list A) :
  l1 ≡ₚ l2 → NoDup (key <$> l1) → sorted key l1 = sorted key l2.
Proof.
  intros Hp Hnd. apply (stable_order_unique key); [apply sorted_sorted.. |].
  intros k. rewrite !sorted_stable.
  pose proof (keyed_perm k _ _ Hp) as Hk.
  pose proof (keyed_distinct k _ Hnd) as Hlen.
  destruct (keyed key k l1) as [|x [|x' l]]; simpl in Hlen; [| |lia].
  - by apply Permutation_nil_l in Hk.
  - by apply Permutation_singleton_l in Hk.
Qed.

End distinct_keys.

(** X6.  When the listed blobs have pairwise distinct order keys, the result
    does not depend on the order in which the storage service lists them. *)
Theorem listing_order_is_irrelevant depth_limit
    uri bucket prefix bucket_name objs1 objs2 w1 w2 :
  gs_uri uri bucket prefix →
  buckets w1 !! bucket_name = Some objs1 →
  buckets w2 !! bucket_name = Some objs2 →
  NoDup (name <$> objs1) →
  NoDup (name <$> objs2) →
  storable objs1 →
  storable objs2 →
  listing prefix objs1 ≡ₚ listing prefix objs2 →
  NoDup (extract_page_number <$> listing prefix objs1) →
  (get_ocr_output_from_bucket depth_limit uri bucket_name w1).1
  = (get_ocr_output_from_bucket depth_limit uri bucket_name w2).1.
Proof.
  intros Huri Hb1 Hb2 Hnd1 Hnd2 _ _ Hperm Hkeys.
  rewrite (get_ocr_output_result _ _ Hnd1 _ _ _ _ _ Huri Hb1).
  rewrite (get_ocr_output_result _ _ Hnd2 _ _ _ _ _ Huri Hb2).
  by rewrite (sorted_perm_distinct _ _ _ Hperm Hkeys).
Qed.

Lemma listing_order_is_irrelevant_witness :
  (get_ocr_output_from_bucket Sample.depth_limit "gs://out/ocr/x/" "out"
     (Sample.store [Sample.page12; Sample.manifest; Sample.hello])).1
  = (get_ocr_output_from_bucket Sample.depth_limit "gs://out/ocr/x/" "out"
       (Sample.store [Sample.hello; Sample.page12; Sample.manifest])).1.
Proof.
  apply (listing_order_is_irrelevant Sample.depth_limit
           "gs://out/ocr/x/" "out" "ocr/x/" "out"
           [Sample.page12; Sample.manifest; Sample.hello]
           [Sample.hello; Sample.page12; Sample.manifest]).
  - by apply (gs_uri_plain "out" "ocr/x/").
  - reflexivity.
  - reflexivity.
  - apply (bool_decide_unpack _). vm_compute. exact I.
  - apply (bool_decide_unpack _). vm_compute. exact I.
  - apply (bool_decide_unpack _). vm_compute. exact I.
  - apply (bool_decide_unpack _). vm_compute. exact I.
  - vm_compute. symmetry. apply (Permutation_cons_append [_; _]).
  - apply (bool_decide_unpack _). vm_compute. exact I.
Defined.

(** ** Page numbers are compared as numbers *)

Section first_range.

Implicit Types (s n pre : string) (ds : list Z).

Lemma app_same_length pre1 pre2 x1 x2 :
  String.length pre1 = String.length pre2 →
  pre1 +:+ x1 = pre2 +:+ x2 → pre1 = pre2 ∧ x1 = x2.
Proof.
  revert pre2. induction pre1 as [|a pre1 IH]; intros [|b pre2]; simpl;
    try done.
  intros [= Hlen] [= -> Heq]. destruct (IH _ Hlen Heq) as [-> ->]. done.
Qed.

Lemma first_page_range_unique s n n' ds ds' :
  first_page_range s n ds → first_page_range s n' ds' → n = n' ∧ ds = ds'.
Proof.
  intros (pre & Hr & Hmin) (pre' & Hr' & Hmin').
  pose proof (Hmin _ _ _ Hr') as H1. pose proof (Hmin' _ _ _ Hr) as H2.
  destruct Hr as (rest & -> & Hn & _).
  destruct Hr' as (rest' & Heq & Hn' & _).
  apply app_same_length in Heq as [_ Heq]; [|lia].
  apply (app_same_length "output-" "output-") in Heq as [_ Heq]; [|done].
  assert (n = n') as <-.
  { eapply (decimal_digits_unique n n' ds ds'); [done | done | | | exact Heq];
      reflexivity. }
  split; [done | congruence].
Qed.

Lemma first_page_range_of_search s n ds :
  Re.re_search page_re s = Some [n] → decimal_digits n = Some ds →
  first_page_range s n ds.
Proof.
  intros H Hn.
  destruct (page_search_first _ _ H) as (n' & ds' & [= <-] & Hr).
  assert (decimal_digits n = Some ds') as Hn'
    by (by destruct Hr as (pre & (rest & _ & ? & _) & _)).
  by replace ds with ds' by congruence.
Qed.

Lemma extract_page_number_first blob n ds :
  first_page_range (name blob) n ds →
  extract_page_number blob = decimal_value ds.
Proof.
  intros Hr.
  destruct (extract_page_number_parseable blob)
    as [_ (n' & ds' & Hr' & ->)].
  - destruct Hr as (pre & Hp & _). by exists pre, n, ds.
  - by destruct (first_page_range_unique _ _ _ _ _ Hr Hr') as [_ ->].
Qed.

End first_range.

(** X7.  Start pages are compared as numbers, not as text: a blob whose
    start page has more digits, the first of which is not a zero, has the
    larger key and is processed later, as [output-11-to-12] after
    [output-9-to-10], in the digits of any script. *)
Theorem longer_page_number_comes_later blobs b1 b2 n1 n2 ds1 d ds2 i j :
  storable (b1 :: b2 :: blobs) →
  first_page_range (name b1) n1 ds1 →
  first_page_range (name b2) n2 (d :: ds2) →
  (length ds1 < length (d :: ds2))%nat →
  d ≠ 0 →
  extract_page_number b1 < extract_page_number b2
  ∧ (sorted extract_page_number blobs !! i = Some b1 →
     sorted extract_page_number blobs !! j = Some b2 →
     (i < j)%nat).
Proof.
  intros _ H1 H2 Hlen Hd.
  assert (extract_page_number b1 < extract_page_number b2) as Hlt.
  { rewrite (extract_page_number_first _ _ _ H1),
            (extract_page_number_first _ _ _ H2).
    destruct H1 as (pre1 & (rest1 & _ & Hn1 & _) & _).
    destruct H2 as (pre2 & (rest2 & _ & Hn2 & _) & _).
    apply decimal_value_longer; [| | done | done];
      by eapply decimal_digits_bounds. }
  split; [done |]. intros Hi Hj.
  destruct (lt_eq_lt_dec i j) as [[? | ->] | Hji]; [done | |].
  - rewrite Hi in Hj. injection Hj as ->. lia.
  - pose proof (sorted_lookup_le _ _ _ _ _ _
                  (sorted_sorted extract_page_number blobs) Hji Hj Hi).
    lia.
Qed.

Lemma longer_page_number_comes_later_witness :
  extract_page_number Sample.page9 < extract_page_number Sample.page12.
Proof.
  apply (longer_page_number_comes_later [] Sample.page9 Sample.page12
           "9" "١٢" [9] 1 [2] 0 0).
  - apply (bool_decide_unpack _). vm_compute. exact I.
  - by apply first_page_range_of_search.
  - by apply first_page_range_of_search.
  - simpl. lia.
  - done.
Defined.

(** ** More on cleanup *)

Section cleanup_frame.

Context (bucket_name prefix : string).

Lemma only_removes_refl store :
  only_removes_under bucket_name prefix store store.
Proof.
  split; [done |]. destruct (store !! bucket_name) as [objs|] eqn:E; [|done].
  by exists objs.
Qed.

Lemma only_removes_trans s1 s2 s3 :
  only_removes_under bucket_name prefix s1 s2 →
  only_removes_under bucket_name prefix s2 s3 →
  only_removes_under bucket_name prefix s1 s3.
Proof.
  intros [Ho1 Hb1] [Ho2 Hb2]. split.
  - intros other Hne. by rewrite Ho2, Ho1.
  - destruct (s1 !! bucket_name) as [objs|].
    + destruct Hb1 as (objs' & E & Hsub & Hkeep). rewrite E in Hb2.
      destruct Hb2 as (objs'' & E' & Hsub' & Hkeep').
      exists objs''. split; [done |]. split; [by auto |].
      intros o Ho Hs. apply Hkeep'; [by apply Hkeep |done].
    + by rewrite Hb1 in Hb2.
Qed.

Lemma blob_delete_only_removes blob w :
  Str.startswith prefix (name blob) = true →
  only_removes_under bucket_name prefix
    (buckets w) (buckets (blob_delete bucket_name blob w).2).
Proof.
  intros Hs. unfold blob_delete, bind, emit. simpl.
  destruct (buckets w !! bucket_name) as [objs|] eqn:E;
    [|apply only_removes_refl].
  destruct (existsb _ objs); [|apply only_removes_refl].
  simpl. split.
  - intros other Hne. by apply lookup_insert_ne.
  - rewrite E. eexists. split; [apply lookup_insert_eq |]. split.
    + intros o Ho. apply list_elem_of_In, filter_In in Ho as [Ho _].
      by apply list_elem_of_In.
    + intros o Ho Hso. apply list_elem_of_In, filter_In.
      split; [by apply list_elem_of_In |].
      apply negb_true_iff, bool_decide_eq_false. intros Hn.
      rewrite Hn in Hso. congruence.
Qed.

Lemma for_each_delete_only_removes blobs w :
  Forall (λ b, Str.startswith prefix (name b) = true) blobs →
  only_removes_under bucket_name prefix
    (buckets w) (buckets (for_each blobs (blob_delete bucket_name) w).2).
Proof.
  intros Hall. revert w. induction Hall as [|b blobs Hb _ IH]; intros w.
  - apply only_removes_refl.
  - simpl. unfold bind at 1.
    pose proof (blob_delete_only_removes b w Hb) as H1.
    destruct (blob_delete bucket_name b w) as [[[]|e] w1]; simpl in *;
      [|done].
    eapply only_removes_trans; [exact H1 | apply IH].
Qed.

End cleanup_frame.

Lemma listing_all_prefixed prefix objs :
  Forall (λ b, Str.startswith prefix (name b) = true) (listing prefix objs).
Proof.
  apply Forall_forall. intros b Hb.
  by apply list_elem_of_In, filter_In in Hb as [_ Hb].
Qed.

(** X8.  Whatever the state of the storage, and whether cleanup returns or
    raises, it adds and changes no object, touches no other bucket and
    leaves in place every object whose name does not start with the prefix;
    on a bucket that does not exist it raises [NotFound]. *)
Theorem cleanup_only_removes_under_the_prefix bucket_name prefix w :
  only_removes_under bucket_name prefix
    (buckets w) (buckets (clear_ocr_output_folder bucket_name prefix w).2)
  ∧ (buckets w !! bucket_name = None →
     (clear_ocr_output_folder bucket_name prefix w).1 = Raise NotFound).
Proof.
  destruct (buckets w !! bucket_name) as [objs|] eqn:Hb.
  - split; [|done].
    set (w1 := log (EvListBlobs bucket_name prefix)
                 (log (EvGetBucket bucket_name) w)).
    set (rest :=
      (for_each (listing prefix objs) (blob_delete bucket_name) ;;
       print ("All blobs with prefix '" +:+ prefix
              +:+ "' have been deleted from bucket '"
              +:+ bucket_name +:+ "'."))%M).
    assert (clear_ocr_output_folder bucket_name prefix w = rest w1) as ->.
    { unfold clear_ocr_output_folder.
      unfold bind at 1. unfold get_bucket at 1, bind at 1, emit.
      simpl buckets. rewrite Hb.
      unfold bind at 1. unfold list_blobs at 1, bind at 1, emit.
      simpl buckets. by rewrite Hb. }
    unfold rest, bind.
    pose proof (for_each_delete_only_removes bucket_name prefix
                  (listing prefix objs) w1 (listing_all_prefixed _ _)) as H.
    destruct (for_each _ _ w1) as [[[]|e] w2]; exact H.
  - assert (clear_ocr_output_folder bucket_name prefix w
            = (Raise NotFound, log (EvGetBucket bucket_name) w)) as ->.
    { unfold clear_ocr_output_folder.
      unfold bind at 1. unfold get_bucket at 1, bind at 1, emit.
      simpl buckets. by rewrite Hb. }
    split; [|done]. simpl. split; [done |]. by rewrite Hb.
Qed.

(** The run of cleanup on a bucket with distinct object names. *)
Lemma clear_ocr_output_folder_run bucket_name prefix objs w :
  buckets w !! bucket_name = Some objs →
  NoDup (name <$> objs) →
  ∃ w',
    clear_ocr_output_folder bucket_name prefix w = (Ok (), w')
    ∧ buckets w'
      = <[bucket_name :=
            List.filter (λ b, negb (Str.startswith prefix (name b))) objs]>
          (buckets w)
    ∧ trace w'
      = trace w
        ++ [EvGetBucket bucket_name; EvListBlobs bucket_name prefix]
        ++ ((λ b, EvDelete bucket_name (name b)) <$> listing prefix objs)
        ++ [EvPrint ("All blobs with prefix '" +:+ prefix
                     +:+ "' have been deleted from bucket '"
                     +:+ bucket_name +:+ "'.")]
    ∧ urandom w' = urandom w ∧ draws w' = draws w ∧ ocr w' = ocr w.
Proof.
  intros Hb Hnd.
  set (w1 := log (EvListBlobs bucket_name prefix)
               (log (EvGetBucket bucket_name) w)).
  destruct (for_each_delete bucket_name (listing prefix objs) objs w1)
    as (w2 & Hrun & Hbk & Htr & Hu & Hd & Ho);
    [done | by apply NoDup_names_filter | |].
  { intros b Hin. apply list_elem_of_fmap_2.
    apply list_elem_of_In, filter_In in Hin as [Hin _].
    by apply list_elem_of_In. }
  eexists (log _ w2). split.
  { unfold clear_ocr_output_folder.
    unfold bind at 1. unfold get_bucket at 1, bind at 1, emit.
    simpl buckets. rewrite Hb.
    unfold bind at 1. unfold list_blobs at 1, bind at 1, emit.
    simpl buckets. rewrite Hb. fold (listing prefix objs).
    fold w1. unfold bind at 1.
    change (λ blob, blob_delete bucket_name blob)
      with (blob_delete bucket_name).
    rewrite Hrun. reflexivity. }
  split.
  { simpl. rewrite Hbk. simpl. f_equal. apply filter_ext_in. intros o Ho'.
    f_equal. apply listed_names. by apply list_elem_of_In. }
  split; [simpl; rewrite Htr; simpl; by rewrite <- !app_assoc |].
  done.
Qed.

Lemma startswith_trans p q n :
  Str.startswith p q = true → Str.startswith q n = true →
  Str.startswith p n = true.
Proof.
  intros [r ->]%startswith_true [r' ->]%startswith_true.
  rewrite app_assoc'. apply startswith_app.
Qed.

Lemma listing_after_cleanup prefix path objs :
  Str.startswith prefix path = true →
  listing path
    (List.filter (λ b, negb (Str.startswith prefix (name b))) objs) = [].
Proof.
  intros Hp. unfold listing. rewrite filter_twice.
  induction objs as [|o objs IH]; simpl; [done |].
  destruct (Str.startswith prefix (name o)) eqn:E1; simpl; [done |].
  destruct (Str.startswith path (name o)) eqn:E2; [|done].
  by rewrite (startswith_trans _ _ _ Hp E2) in E1.
Qed.

(** X9.  Right after cleanup at a prefix, reading at any path that starts
    with that prefix finds nothing and returns the empty string. *)
Theorem reading_after_cleanup_is_empty depth_limit
    uri bucket path bucket_name prefix objs w :
  buckets w !! bucket_name = Some objs →
  NoDup (name <$> objs) →
  gs_uri uri bucket path →
  Str.startswith prefix path = true →
  (get_ocr_output_from_bucket depth_limit uri bucket_name
     (clear_ocr_output_folder bucket_name prefix w).2).1 = Ok EmptyString.
Proof.
  intros Hb Hnd Huri Hp.
  destruct (clear_ocr_output_folder_run bucket_name prefix objs w Hb Hnd)
    as (w' & -> & Hbk & _). simpl.
  rewrite (get_ocr_output_result bucket_name
             (List.filter (λ b, negb (Str.startswith prefix (name b))) objs)
             (NoDup_names_filter _ _ Hnd) depth_limit uri bucket path w' Huri).
  - by rewrite listing_after_cleanup.
  - rewrite Hbk. apply lookup_insert_eq.
Qed.

Lemma reading_after_cleanup_is_empty_witness :
  (get_ocr_output_from_bucket Sample.depth_limit "gs://out/ocr/x/" "out"
     (clear_ocr_output_folder "out" "ocr/x"
        (Sample.store [Sample.hello; Sample.other; Sample.world])).2).1
  = Ok EmptyString.
Proof.
  apply (reading_after_cleanup_is_empty Sample.depth_limit "gs://out/ocr/x/"
      "out" "ocr/x/"
           "out" "ocr/x" [Sample.hello; Sample.other; Sample.world]).
  - reflexivity.
  - apply (bool_decide_unpack _). vm_compute. exact I.
  - by apply (gs_uri_plain "out" "ocr/x/").
  - reflexivity.
Defined.

Lemma startswith_refl p : Str.startswith p p = true.
Proof.
  pose proof (startswith_app p EmptyString) as H. by rewrite app_empty_r in H.
Qed.

Lemma nothing_listed_all_kept prefix objs :
  listing prefix objs = [] →
  List.filter (λ b, negb (Str.startswith prefix (name b))) objs = objs.
Proof.
  unfold listing. induction objs as [|o objs IH]; simpl; [done |].
  destruct (Str.startswith prefix (name o)); simpl; [done |].
  intros H. by rewrite IH.
Qed.

(** X10.  Cleanup is idempotent: run again right after itself it deletes
    nothing and leaves the buckets as the first run left them. *)
Theorem cleanup_twice_is_cleanup_once bucket_name prefix objs w :
  buckets w !! bucket_name = Some objs →
  NoDup (name <$> objs) →
  let once := (clear_ocr_output_folder bucket_name prefix w).2 in
  let twice := (clear_ocr_output_folder bucket_name prefix once).2 in
  (clear_ocr_output_folder bucket_name prefix once).1 = Ok ()
  ∧ buckets twice = buckets once
  ∧ events_of (clear_ocr_output_folder bucket_name prefix) once
    = [EvGetBucket bucket_name; EvListBlobs bucket_name prefix;
       EvPrint ("All blobs with prefix '" +:+ prefix
                +:+ "' have been deleted from bucket '"
                +:+ bucket_name +:+ "'.")].
Proof.
  intros Hb Hnd. cbv zeta.
  destruct (clear_ocr_output_folder_run bucket_name prefix objs w Hb Hnd)
    as (w1 & -> & Hbk1 & _). simpl.
  set (kept := List.filter (λ b, negb (Str.startswith prefix (name b))) objs)
    in *.
  assert (buckets w1 !! bucket_name = Some kept) as Hb1
    by (rewrite Hbk1; apply lookup_insert_eq).
  assert (listing prefix kept = []) as Hnone
    by apply listing_after_cleanup, startswith_refl.
  destruct (clear_ocr_output_folder_run bucket_name prefix kept w1 Hb1
              (NoDup_names_filter _ _ Hnd))
    as (w2 & Hrun & Hbk2 & Htr & _).
  rewrite (events_of_app _ _ _
             (eq_trans (f_equal (λ r, trace r.2) Hrun) Htr)).
  rewrite Hrun, Hnone. simpl. split; [done |]. split; [|done].
  rewrite Hbk2, (nothing_listed_all_kept _ _ Hnone). by apply insert_id.
Qed.

Lemma cleanup_twice_is_cleanup_once_witness :
  buckets
    (clear_ocr_output_folder "out" "ocr/x"
       (clear_ocr_output_folder "out" "ocr/x"
          (Sample.store [Sample.hello; Sample.other])).2).2
  = buckets
      (clear_ocr_output_folder "out" "ocr/x"
         (Sample.store [Sample.hello; Sample.other])).2.
Proof.
  apply (cleanup_twice_is_cleanup_once "out" "ocr/x"
           [Sample.hello; Sample.other]
           (Sample.store [Sample.hello; Sample.other])).
  - reflexivity.
  - apply (bool_decide_unpack _). vm_compute. exact I.
Defined.

Lemma cleanup_only_removes_under_the_prefix_witness :
  (clear_ocr_output_folder "missing" "ocr/x"
     (Sample.store [Sample.hello])).1 = Raise NotFound.
Proof.
  apply (cleanup_only_removes_under_the_prefix "missing" "ocr/x"
           (Sample.store [Sample.hello])).
  reflexivity.
Defined.

(** ** The identifier and the URI of a job *)

Section identifiers.

Local Open Scope Z_scope.

Lemma hex_digit_lower d :
  0 ≤ d < 16 → is_lower_hex (Uuid.hex_digit d) = true.
Proof.
  intros Hd.
  assert (d = 0 ∨ d = 1 ∨ d = 2 ∨ d = 3 ∨ d = 4 ∨ d = 5 ∨ d = 6 ∨ d = 7
          ∨ d = 8 ∨ d = 9 ∨ d = 10 ∨ d = 11 ∨ d = 12 ∨ d = 13 ∨ d = 14
          ∨ d = 15) as Hcases by lia.
  repeat (destruct Hcases as [-> | Hcases]; [reflexivity |]).
  by subst d.
Qed.

Lemma hex_digits_length n x acc :
  String.length (Uuid.hex_digits n x acc) = (n + String.length acc)%nat.
Proof.
  revert x acc. induction n as [|n IH]; intros x acc; simpl; [done |].
  rewrite IH. simpl. lia.
Qed.

Lemma hex_digits_lower n x acc :
  Str.all is_lower_hex acc = true →
  Str.all is_lower_hex (Uuid.hex_digits n x acc) = true.
Proof.
  revert x acc. induction n as [|n IH]; intros x acc Hacc; simpl; [done |].
  apply IH. simpl. rewrite Hacc, hex_digit_lower; [done |].
  apply Z.mod_pos_bound. lia.
Qed.

Lemma all_impl (p q : ascii → bool) s :
  (∀ c, p c = true → q c = true) → Str.all p s = true → Str.all q s = true.
Proof.
  intros Hpq. induction s as [|c s IH]; simpl; [done |].
  intros [Hc Hs]%andb_true_iff. by rewrite (Hpq _ Hc), IH.
Qed.

Lemma lower_hex_not_line_feed c :
  is_lower_hex c = true → bool_decide (c ≠ Re.line_feed) = true.
Proof.
  intros H. apply bool_decide_eq_true. intros ->. by vm_compute in H.
Qed.

Lemma lower_hex_not_slash c :
  is_lower_hex c = true → bool_decide (c ≠ "/"%char) = true.
Proof.
  intros H. apply bool_decide_eq_true. intros ->. by vm_compute in H.
Qed.

Lemma next_id_shape w :
  String.length (next_id w) = 32%nat
  ∧ Str.all is_lower_hex (next_id w) = true.
Proof.
  unfold next_id, Uuid.hex. split.
  - by rewrite hex_digits_length.
  - by apply hex_digits_lower.
Qed.

Lemma job_uri bucket name output_bucket w :
  output_bucket ≠ EmptyString →
  Str.all (λ a, bool_decide (a ≠ "/"%char)) output_bucket = true →
  gs_uri
    (destination_uri
       (gcs_destination
          (output_config (ocr_request bucket name output_bucket (next_id w)))))
    output_bucket ("ocr/" +:+ next_id w +:+ "/").
Proof.
  intros Hne Hslash.
  apply (gs_uri_plain output_bucket ("ocr/" +:+ next_id w +:+ "/"));
    [done | done | done |].
  destruct (next_id_shape w) as [_ Hhex].
  generalize dependent (next_id w). intros unique_id Hhex.
  simpl. rewrite all_app. simpl.
  by rewrite (all_impl _ _ _ lower_hex_not_line_feed Hhex).
Qed.

End identifiers.

(** X11.  The identifier of a job is 32 lowercase hexadecimal digits, and
    for a bucket name that is not empty and has no slash, the destination
    URI the run builds parses into that bucket and the path
    [ocr/<id>/]: the reader, which the run calls with this URI, lists
    the folder of the job. *)
Theorem destination_uri_parses bucket name output_bucket w :
  output_bucket ≠ EmptyString →
  Str.all (λ a, bool_decide (a ≠ "/"%char)) output_bucket = true →
  let unique_id := next_id w in
  let request := ocr_request bucket name output_bucket unique_id in
  let uri := destination_uri (gcs_destination (output_config request)) in
  String.length unique_id = 32%nat
  ∧ Str.all is_lower_hex unique_id = true
  ∧ Re.re_match uri_re uri
    = Some [output_bucket; "ocr/" +:+ unique_id +:+ "/"]
  ∧ (∀ depth_limit timeout,
       async_document_extract depth_limit bucket name output_bucket timeout w
       = match clear_ocr_output_folder output_bucket ("ocr/" +:+ unique_id)
                 (log (EvUuid4 unique_id) (draw w)) with
         | (Ok _, w1) =>
             submit_and_collect depth_limit request (default 420 timeout)
               output_bucket w1
         | (Raise e, w1) => (Raise e, w1)
         end)
  ∧ (∀ depth_limit w',
       get_ocr_output_from_bucket depth_limit uri output_bucket w'
       = (let! handle := get_bucket output_bucket in
          let! blobs := list_blobs handle ("ocr/" +:+ unique_id +:+ "/") in
          for_fold (sorted extract_page_number blobs)
            (add_blob_text depth_limit handle) EmptyString) w').
Proof.
  intros Hne Hslash. cbv zeta.
  destruct (next_id_shape w) as [Hlen Hhex].
  pose proof (job_uri bucket name output_bucket w Hne Hslash) as Huri.
  split; [exact Hlen |]. split; [exact Hhex |].
  split; [by apply uri_match_of_gs_uri |].
  split; [intros; apply async_document_extract_unfold |].
  intros depth_limit w'. by apply get_ocr_output_parsed with output_bucket.
Qed.

Lemma destination_uri_parses_witness :
  Re.re_match uri_re
    (destination_uri
       (gcs_destination
          (output_config
             (ocr_request "in" "doc.pdf" "out" (next_id Sample.job)))))
  = Some ["out"; "ocr/" +:+ next_id Sample.job +:+ "/"].
Proof.
  refine (proj1 (proj2 (proj2
    (destination_uri_parses "in" "doc.pdf" "out" Sample.job _ _)))).
  - discriminate.
  - reflexivity.
Defined.

(** ** A run from start to end *)

Lemma listing_app prefix l1 l2 :
  listing prefix (l1 ++ l2) = listing prefix l1 ++ listing prefix l2.
Proof. unfold listing. apply List.filter_app. Qed.

(** The run of a job whose cleanup returns and whose batch is accepted and
    done in time. *)
Lemma async_document_extract_done depth_limit
    bucket name output_bucket timeout w w1 update :
  let unique_id := next_id w in
  let request := ocr_request bucket name output_bucket unique_id in
  clear_ocr_output_folder output_bucket ("ocr/" +:+ unique_id)
    (log (EvUuid4 unique_id) (draw w)) = (Ok (), w1) →
  ocr w1 = ocr w →
  accepted (ocr w [request]) = true →
  duration (ocr w [request]) ≤ default 420 timeout →
  outcome (ocr w [request]) = Ok update →
  async_document_extract depth_limit bucket name output_bucket timeout w
  = get_ocr_output_from_bucket depth_limit
      (destination_uri (gcs_destination (output_config request)))
      output_bucket
      (set_buckets update
         (log (EvResult (default 420 timeout))
            (log (EvPrint "OCR: waiting for the operation to finish.")
               (log (EvAnnotate [request]) w1)))).
Proof.
  cbv zeta. intros Hclean Hocr Hacc Hdur Hout.
  rewrite async_document_extract_unfold, Hclean.
  rewrite submit_and_collect_unfold. cbv zeta. rewrite Hocr, Hacc, Hout.
  destruct (Z.ltb_spec (default 420 timeout)
              (duration (ocr w [ocr_request bucket name output_bucket
                                  (next_id w)]))); [lia | done].
Qed.

(** X12.  A run on an existing bucket whose batch is accepted and done in
    time returns the text of the files the service has added under
    [ocr/<id>/], in page order: whatever the bucket held before does not
    reach the result, and the files are not deleted afterwards. *)
Theorem run_returns_the_text_of_the_job depth_limit
    bucket file output_bucket timeout w objs written update :
  buckets w !! output_bucket = Some objs →
  NoDup (name <$> objs) →
  output_bucket ≠ EmptyString →
  Str.all (λ a, bool_decide (a ≠ "/"%char)) output_bucket = true →
  let unique_id := next_id w in
  let kept :=
    List.filter
      (λ b, negb (Str.startswith ("ocr/" +:+ unique_id) (name b))) objs in
  let operation :=
    ocr w [ocr_request bucket file output_bucket unique_id] in
  accepted operation = true →
  duration operation ≤ default 420 timeout →
  outcome operation = Ok update →
  update (<[output_bucket := kept]> (buckets w)) !! output_bucket
  = Some (kept ++ written) →
  NoDup (name <$> kept ++ written) →
  let run := async_document_extract depth_limit bucket file output_bucket
      timeout w in
  run.1
  = texts_of depth_limit
      (sorted extract_page_number
         (listing ("ocr/" +:+ unique_id +:+ "/") written))
      EmptyString
  ∧ buckets run.2 = update (<[output_bucket := kept]> (buckets w)).
Proof.
  intros Hb Hnd Hne Hslash. cbv zeta. intros Hacc Hdur Hout Hup Hnd'.
  pose proof (job_uri bucket file output_bucket w Hne Hslash) as Huri.
  destruct (clear_ocr_output_folder_run output_bucket ("ocr/" +:+ next_id w)
              objs (log (EvUuid4 (next_id w)) (draw w)) Hb Hnd)
    as (w1 & Hclean & Hbk & _ & _ & _ & Hocr).
  rewrite (async_document_extract_done _ _ _ _ _ _ _ _ Hclean Hocr Hacc Hdur
             Hout).
  generalize dependent (next_id w). intros unique_id. intros.
  set (w4 := set_buckets update _).
  assert (buckets w4 = update (<[output_bucket := List.filter
            (λ b, negb (Str.startswith ("ocr/" +:+ unique_id) (name b)))
            objs]> (buckets w))) as Hbk4.
  { unfold w4. simpl buckets. by rewrite Hbk. }
  split.
  - rewrite (get_ocr_output_result output_bucket _ Hnd' _ _ _ _ w4 Huri);
      [|by rewrite Hbk4].
    rewrite listing_app, listing_after_cleanup; [done |].
    apply (startswith_app ("ocr/" +:+ unique_id) "/").
  - by rewrite read_only_get_ocr_output.
Qed.

Lemma run_returns_the_text_of_the_job_witness :
  (async_document_extract Sample.depth_limit "in" "doc.pdf" "out" None
      Sample.job).1
  = Ok "Hello World".
Proof.
  refine (eq_trans (proj1 (run_returns_the_text_of_the_job
    Sample.depth_limit "in" "doc.pdf" "out" None Sample.job [Sample.other]
    (Sample.written "00000010000040008000000000000000")
    (λ store,
       <["out" := default [] (store !! "out")
                  ++ Sample.written "00000010000040008000000000000000"]>
         store)
    _ _ _ _ _ _ _ _ _)) _).
  - reflexivity.
  - apply (bool_decide_unpack _). vm_compute. exact I.
  - discriminate.
  - reflexivity.
  - reflexivity.
  - vm_compute. discriminate.
  - reflexivity.
  - vm_compute. reflexivity.
  - apply (bool_decide_unpack _). vm_compute. exact I.
  - vm_compute. reflexivity.
Defined.

(** X13.  When the operation ends in an error within the timeout, the run
    raises that error; it has waited once and reads nothing from the
    bucket. *)
Theorem failed_operation_is_raised depth_limit bucket file output_bucket
    timeout w e :
  let unique_id := next_id w in
  let drawn := log (EvUuid4 unique_id) (draw w) in
  let cleanup :=
    clear_ocr_output_folder output_bucket ("ocr/" +:+ unique_id) in
  let request := ocr_request bucket file output_bucket unique_id in
  let operation := ocr w [request] in
  let run := async_document_extract depth_limit bucket file output_bucket
      timeout in
  (cleanup drawn).1 = Ok () →
  accepted operation = true →
  duration operation ≤ default 420 timeout →
  outcome operation = Raise e →
  (run w).1 = Raise e
  ∧ buckets (run w).2 = buckets (cleanup drawn).2
  ∧ events_of run w
    = EvUuid4 unique_id :: events_of cleanup drawn
      ++ [EvAnnotate [request];
          EvPrint "OCR: waiting for the operation to finish.";
          EvResult (default 420 timeout)].
Proof.
  cbv zeta.
  set (prefix := "ocr/" +:+ next_id w).
  set (drawn := log (EvUuid4 (next_id w)) (draw w)).
  set (request := ocr_request bucket file output_bucket (next_id w)).
  intros Hclean Hacc Hdur Hout.
  destruct (storage_only_clear output_bucket prefix drawn)
    as (cev & Ht & _ & _ & _ & Ho).
  rewrite (events_of_app _ _ _ Ht).
  assert (async_document_extract depth_limit bucket file output_bucket timeout w
          = (Raise e,
             log (EvResult (default 420 timeout))
               (log (EvPrint "OCR: waiting for the operation to finish.")
                  (log (EvAnnotate [request])
                     (clear_ocr_output_folder output_bucket prefix
                        drawn).2)))) as Hrun.
  { rewrite async_document_extract_unfold. fold prefix drawn request.
    destruct (clear_ocr_output_folder output_bucket prefix drawn)
      as [[[]|e'] w1]; simpl in Hclean, Ho |- *; [|done].
    rewrite submit_and_collect_unfold. cbv zeta.
    rewrite Ho. change (ocr drawn) with (ocr w). rewrite Hacc, Hout.
    destruct (Z.ltb_spec (default 420 timeout)
                (duration (ocr w [request]))); [lia | done]. }
  split; [by rewrite Hrun |]. split; [by rewrite Hrun |].
  apply events_of_app. rewrite Hrun. simpl. rewrite Ht. simpl.
  by rewrite <- !app_assoc.
Qed.

Lemma failed_operation_is_raised_witness :
  (async_document_extract Sample.depth_limit "in" "doc.pdf" "out" None
      Sample.failing).1
  = Raise ServiceError.
Proof.
  apply (failed_operation_is_raised Sample.depth_limit "in" "doc.pdf" "out" None
           Sample.failing ServiceError).
  - vm_compute. reflexivity.
  - reflexivity.
  - vm_compute. discriminate.
  - reflexivity.
Defined.
